(** * SearchUI: the result composition and presentation pipeline

    A shallow embedding of [src/app/semantic-search/SearchUI.js]:
    [normalizeString], [highlightText], the [filteredData] effect (filter and
    sort), the pagination values and the [handleSubmit] / [handleShowAll]
    handlers, together with the parts of the JavaScript runtime they call
    (string methods, [RegExp], [parseInt], [Array.prototype.sort] and
    [slice]).

    Conventions of the model.
    - A JavaScript string is a [list ascii]: a sequence of code units, each
      below 256 (the Latin-1 block).  Code units above 255 are outside the
      model.
    - A JavaScript number is [NaN], an infinity, or an exact rational; the
      rounding of binary64 arithmetic is not modelled.  The sign of a
      difference of two numbers and the ceiling of a quotient of small
      integers are what they are in binary64.  A conversion from text
      ([parseInt], [Number]) is exact here and rounded there: the two agree
      on the integers of magnitude up to 2^53, and the statements about an
      order of parsed years are made for those ([exact_year]).
    - A record is a [gmap string value] from field names to primitive
      values (string, number, boolean, null); an absent field reads as
      [VUndefined].  Records with an array or an object in a field are
      outside the model.
    - [Array.prototype.sort] is modelled by one stable sort.  The language
      fixes the result for a consistent comparator only; where a comparator
      returns [NaN] the statements are about the contents of the result or
      about the comparator, not about an order.
    - Code that can throw returns a [completion]. *)

From Stdlib Require Import ZArith QArith Qround Qabs Ascii String List Sorted Permutation Lia.
From stdpp Require Import base option list gmap strings.

Local Open Scope bool_scope.
Local Open Scope list_scope.

(** ** Completions *)

Inductive error := TypeError | SyntaxError.

(** [Unmodelled] is not a JavaScript outcome: it marks an input that leaves
    the fragment of the runtime this development embeds. *)
Inductive completion (A : Type) :=
| Normal (a : A)
| Throw (e : error)
| Unmodelled.
Arguments Normal {A} a.
Arguments Throw {A} e.
Arguments Unmodelled {A}.

#[global] Instance completion_ret : MRet completion := fun _ a => Normal a.
#[global] Instance completion_bind : MBind completion := fun _ _ f m =>
  match m with
  | Normal a => f a
  | Throw e => Throw e
  | Unmodelled => Unmodelled
  end.

(** ** Code units and strings *)

Definition str (s : string) : list ascii := list_ascii_of_string s.

Definition code (c : ascii) : N := N_of_ascii c.

Definition in_range (lo hi : N) (c : ascii) : bool :=
  (lo <=? code c)%N && (code c <=? hi)%N.

Definition is_upper (c : ascii) : bool := in_range 65 90 c.
Definition is_lower (c : ascii) : bool := in_range 97 122 c.
Definition is_digit (c : ascii) : bool := in_range 48 57 c.

(** [\w] without the unicode flag: [[A-Za-z0-9_]]. *)
Definition is_word (c : ascii) : bool :=
  is_upper c || is_lower c || is_digit c || (code c =? 95)%N.

(** WhiteSpace and LineTerminator below 256: TAB, LF, VT, FF, CR, SP, NBSP.
    This is the set of [\s], of [String.prototype.trim] and of the
    whitespace [parseInt] skips. *)
Definition is_space (c : ascii) : bool :=
  in_range 9 13 c || (code c =? 32)%N || (code c =? 160)%N.

(** LineTerminator below 256: LF and CR, the code units [.] refuses. *)
Definition is_line_terminator (c : ascii) : bool :=
  (code c =? 10)%N || (code c =? 13)%N.

(** The letters of Latin-1 that have a lower-case partner in Latin-1. *)
Definition is_upper_latin1 (c : ascii) : bool :=
  in_range 192 222 c && negb (code c =? 215)%N.
Definition is_lower_latin1 (c : ascii) : bool :=
  in_range 224 254 c && negb (code c =? 247)%N.

(** Per code unit lower-casing, as [String.prototype.toLowerCase] does it
    below 256. *)
Definition lower_char (c : ascii) : ascii :=
  if is_upper c || is_upper_latin1 c then ascii_of_N (code c + 32) else c.

(** Canonicalize of the [i] flag (without [u]): the upper-case partner when
    it is a single code unit of the same block; y-diaeresis, micro and sharp
    s have none below 256 and stay. *)
Definition upper_char (c : ascii) : ascii :=
  if is_lower c || is_lower_latin1 c then ascii_of_N (code c - 32) else c.

Definition toLowerCase (s : list ascii) : list ascii := map lower_char s.

Fixpoint dropwhile {A} (p : A -> bool) (l : list A) : list A :=
  match l with
  | [] => []
  | x :: l' => if p x then dropwhile p l' else l
  end.

Definition trimStart (s : list ascii) : list ascii := dropwhile is_space s.
Definition trimEnd (s : list ascii) : list ascii := rev (dropwhile is_space (rev s)).
Definition trim (s : list ascii) : list ascii := trimEnd (trimStart s).

Definition ascii_eqb (a b : ascii) : bool := (code a =? code b)%N.

(** ** Regular expressions: syntax *)

Inductive class_atom :=
| CAChar (c : ascii)
| CARange (lo hi : ascii)
| CADigit (neg : bool)
| CAWord (neg : bool)
| CASpace (neg : bool).

Inductive regex :=
| REmpty
| RChar (c : ascii)
| RAny
| RClass (neg : bool) (items : list class_atom)
| RBol
| REol
| RWordBoundary (neg : bool)
| RSeq (r1 r2 : regex)
| RAlt (r1 r2 : regex)
| RRepeat (lo : nat) (hi : option nat) (greedy : bool) (r : regex)
| RGroup (idx : nat) (r : regex).

(** ** Regular expressions: the pattern parser of [new RegExp]

    One pass over the pattern, a code unit at a time, with a stack of open
    groups.  The grammar is the one of ECMAScript with the Annex B
    relaxations and no [u] flag.  Outside the fragment, and reported as
    [Unmodelled]: look-around and named groups (anything after [(?] but
    [:]), back references and the escapes [\0]..[\9], [\c], [\x], [\u],
    [\k]. *)

(** What the last term of the alternative being read is: nothing, an atom a
    quantifier may follow, a quantified atom (a [?] makes it lazy), or a
    term no quantifier may follow. *)
Inductive lastkind := LNone | LAtom | LQuant | LFixed.

Record frame := mkFrame {
  f_group : option nat;      (* index of the capturing group, None for (?: *)
  f_alts : list regex;       (* alternatives read so far, last first *)
  f_seq : list regex;        (* terms of the current alternative, last first *)
  f_last : lastkind
}.

(** Tokens of a character class, before ranges are resolved. *)
Inductive ctok := CTLit (c : ascii) | CTDash | CTSet (a : class_atom).

Inductive mode :=
| MNormal
| MEscape
| MGroupOpen
| MGroupQ
| MBrace (lo : list ascii) (comma : bool) (hi : list ascii)
| MClassOpen
| MClass (neg : bool) (toks : list ctok)
| MClassEscape (neg : bool) (toks : list ctok).

Record pstate := mkPstate {
  p_mode : mode;
  p_top : frame;
  p_stack : list frame;
  p_groups : nat
}.

Definition empty_frame (g : option nat) : frame := mkFrame g [] [] LNone.

Definition seq_regex (terms_rev : list regex) : regex :=
  match terms_rev with
  | [] => REmpty
  | r :: rs => fold_left (fun acc t => RSeq t acc) rs r
  end.

Definition frame_regex (f : frame) : regex :=
  fold_left (fun acc a => RAlt a acc) (f_alts f) (seq_regex (f_seq f)).

Definition set_mode (m : mode) (st : pstate) : pstate :=
  mkPstate m (p_top st) (p_stack st) (p_groups st).

Definition push_term (r : regex) (k : lastkind) (st : pstate) : pstate :=
  let f := p_top st in
  mkPstate MNormal (mkFrame (f_group f) (f_alts f) (r :: f_seq f) k)
           (p_stack st) (p_groups st).

Definition push_lit (c : ascii) (st : pstate) : pstate := push_term (RChar c) LAtom st.

Definition quantify (lo : nat) (hi : option nat) (st : pstate) : completion pstate :=
  let f := p_top st in
  match f_last f, f_seq f with
  | LAtom, r :: rs =>
      Normal (mkPstate MNormal
                (mkFrame (f_group f) (f_alts f) (RRepeat lo hi true r :: rs) LQuant)
                (p_stack st) (p_groups st))
  | _, _ => Throw SyntaxError          (* nothing to repeat *)
  end.

Definition make_lazy (st : pstate) : completion pstate :=
  let f := p_top st in
  match f_seq f with
  | RRepeat lo hi _ r :: rs =>
      Normal (mkPstate MNormal
                (mkFrame (f_group f) (f_alts f) (RRepeat lo hi false r :: rs) LFixed)
                (p_stack st) (p_groups st))
  | _ => Throw SyntaxError
  end.

Definition open_group (capturing : bool) (st : pstate) : pstate :=
  if capturing
  then mkPstate MNormal (empty_frame (Some (S (p_groups st))))
                (p_top st :: p_stack st) (S (p_groups st))
  else mkPstate MNormal (empty_frame None) (p_top st :: p_stack st) (p_groups st).

Definition close_group (st : pstate) : completion pstate :=
  match p_stack st with
  | [] => Throw SyntaxError            (* unmatched ) *)
  | parent :: stack' =>
      let body := frame_regex (p_top st) in
      let r := match f_group (p_top st) with
               | Some i => RGroup i body
               | None => body
               end in
      Normal (mkPstate MNormal
                (mkFrame (f_group parent) (f_alts parent) (r :: f_seq parent) LAtom)
                stack' (p_groups st))
  end.

Definition next_alternative (st : pstate) : pstate :=
  let f := p_top st in
  mkPstate MNormal (mkFrame (f_group f) (seq_regex (f_seq f) :: f_alts f) [] LNone)
           (p_stack st) (p_groups st).

Definition step_normal (c : ascii) (st : pstate) : completion pstate :=
  match c with
  | "\"%char => Normal (set_mode MEscape st)
  | "^"%char => Normal (push_term RBol LFixed st)
  | "$"%char => Normal (push_term REol LFixed st)
  | "."%char => Normal (push_term RAny LAtom st)
  | "*"%char => quantify 0 None st
  | "+"%char => quantify 1 None st
  | "?"%char => match f_last (p_top st) with
                | LQuant => make_lazy st
                | _ => quantify 0 (Some 1) st
                end
  | "("%char => Normal (set_mode MGroupOpen st)
  | ")"%char => close_group st
  | "|"%char => Normal (next_alternative st)
  | "["%char => Normal (set_mode MClassOpen st)
  | "{"%char => Normal (set_mode (MBrace [] false []) st)
  | _ => Normal (push_lit c st)
  end.

(** The control escapes, shared by patterns and classes. *)
Definition control_escape (c : ascii) : option ascii :=
  match c with
  | "t"%char => Some (ascii_of_N 9)
  | "n"%char => Some (ascii_of_N 10)
  | "v"%char => Some (ascii_of_N 11)
  | "f"%char => Some (ascii_of_N 12)
  | "r"%char => Some (ascii_of_N 13)
  | _ => None
  end.

Definition class_escape (c : ascii) : option class_atom :=
  match c with
  | "d"%char => Some (CADigit false)
  | "D"%char => Some (CADigit true)
  | "w"%char => Some (CAWord false)
  | "W"%char => Some (CAWord true)
  | "s"%char => Some (CASpace false)
  | "S"%char => Some (CASpace true)
  | _ => None
  end.

Definition unmodelled_escape (c : ascii) : bool :=
  is_digit c || ascii_eqb c "c" || ascii_eqb c "x" || ascii_eqb c "u" || ascii_eqb c "k".

Definition step_escape (c : ascii) (st : pstate) : completion pstate :=
  if unmodelled_escape c then Unmodelled
  else match class_escape c, control_escape c with
       | Some a, _ => Normal (push_term (RClass false [a]) LAtom st)
       | None, Some k => Normal (push_lit k st)
       | None, None =>
           match c with
           | "b"%char => Normal (push_term (RWordBoundary false) LFixed st)
           | "B"%char => Normal (push_term (RWordBoundary true) LFixed st)
           | _ => Normal (push_lit c st)        (* identity escape *)
           end
       end.

Fixpoint digits_value (ds : list ascii) (acc : N) : N :=
  match ds with
  | [] => acc
  | d :: ds' => digits_value ds' (acc * 10 + (code d - 48))%N
  end.

(** A brace that turned out not to be a quantifier: its code units are
    pattern characters. *)
Definition flush_brace (lo : list ascii) (comma : bool) (hi : list ascii)
    (st : pstate) : pstate :=
  fold_left (fun s c => push_lit c s)
            (("{"%char :: lo) ++ (if comma then [","%char] else []) ++ hi) st.

Definition step_brace (lo : list ascii) (comma : bool) (hi : list ascii)
    (c : ascii) (st : pstate) : completion pstate :=
  if is_digit c then
    Normal (set_mode (if comma then MBrace lo true (hi ++ [c])
                      else MBrace (lo ++ [c]) false []) st)
  else if ascii_eqb c "," && negb comma && negb (Nat.eqb (length lo) 0) then
    Normal (set_mode (MBrace lo true []) st)
  else if ascii_eqb c "}" && negb (Nat.eqb (length lo) 0) then
    let n := N.to_nat (digits_value lo 0) in
    let m := N.to_nat (digits_value hi 0) in
    if negb comma then quantify n (Some n) (set_mode MNormal st)
    else if Nat.eqb (length hi) 0 then quantify n None (set_mode MNormal st)
    else if (m <? n)%nat then Throw SyntaxError     (* numbers out of order *)
    else quantify n (Some m) (set_mode MNormal st)
  else step_normal c (flush_brace lo comma hi st).

(** Ranges of a class: [x-y] between two code units (a dash counts as one)
    is a range, an error when out of order; with a class escape on either
    side the three stand for themselves; a dash first or last is a literal
    dash. *)
Definition tok_atom (t : ctok) : class_atom :=
  match t with
  | CTLit c => CAChar c
  | CTDash => CAChar "-"
  | CTSet a => a
  end.

Definition tok_char (t : ctok) : option ascii :=
  match t with
  | CTLit c => Some c
  | CTDash => Some "-"%char
  | CTSet _ => None
  end.

Fixpoint resolve_class (toks : list ctok) : completion (list class_atom) :=
  match toks with
  | [] => Normal []
  | t :: rest =>
      match rest with
      | CTDash :: y :: rest' =>
          match tok_char t, tok_char y with
          | Some a, Some b =>
              if (code b <? code a)%N then Throw SyntaxError
              else items ← resolve_class rest'; Normal (CARange a b :: items)
          | _, _ =>
              items ← resolve_class rest';
              Normal (tok_atom t :: CAChar "-" :: tok_atom y :: items)
          end
      | _ => items ← resolve_class rest; Normal (tok_atom t :: items)
      end
  end.

Definition step_class (neg : bool) (toks : list ctok) (c : ascii) (st : pstate)
    : completion pstate :=
  match c with
  | "]"%char => items ← resolve_class toks;
                Normal (push_term (RClass neg items) LAtom st)
  | "\"%char => Normal (set_mode (MClassEscape neg toks) st)
  | "-"%char => Normal (set_mode (MClass neg (toks ++ [CTDash])) st)
  | _ => Normal (set_mode (MClass neg (toks ++ [CTLit c])) st)
  end.

Definition step_class_escape (neg : bool) (toks : list ctok) (c : ascii)
    (st : pstate) : completion pstate :=
  if unmodelled_escape c then Unmodelled
  else match class_escape c, control_escape c with
       | Some a, _ => Normal (set_mode (MClass neg (toks ++ [CTSet a])) st)
       | None, Some k => Normal (set_mode (MClass neg (toks ++ [CTLit k])) st)
       | None, None =>
           match c with
           | "b"%char => Normal (set_mode (MClass neg (toks ++ [CTLit (ascii_of_N 8)])) st)
           | _ => Normal (set_mode (MClass neg (toks ++ [CTLit c])) st)
           end
       end.

Definition step (st : pstate) (c : ascii) : completion pstate :=
  match p_mode st with
  | MNormal => step_normal c st
  | MEscape => step_escape c st
  | MGroupOpen =>
      if ascii_eqb c "?" then Normal (set_mode MGroupQ st)
      else step_normal c (open_group true st)
  | MGroupQ =>
      if ascii_eqb c ":" then Normal (open_group false st) else Unmodelled
  | MBrace lo comma hi => step_brace lo comma hi c st
  | MClassOpen =>
      if ascii_eqb c "^" then Normal (set_mode (MClass true []) st)
      else step_class false [] c st
  | MClass neg toks => step_class neg toks c st
  | MClassEscape neg toks => step_class_escape neg toks c st
  end.

Fixpoint steps (st : pstate) (s : list ascii) : completion pstate :=
  match s with
  | [] => Normal st
  | c :: s' => st' ← step st c; steps st' s'
  end.

Definition finish (st : pstate) : completion (regex * nat) :=
  let done st := match p_stack st with
                 | [] => Normal (frame_regex (p_top st), p_groups st)
                 | _ :: _ => Throw SyntaxError        (* unterminated group *)
                 end in
  match p_mode st with
  | MNormal => done st
  | MBrace lo comma hi => done (flush_brace lo comma hi st)
  | _ => Throw SyntaxError
  end.

Definition parse_pattern (pattern : list ascii) : completion (regex * nat) :=
  st ← steps (mkPstate MNormal (empty_frame None) [] 0) pattern; finish st.

(** ** Regular expressions: matching

    A backtracking matcher.  A match state is the text already passed (last
    code unit first), the text ahead and the captures; [rmatch] returns the
    states a regex can end in, in the order backtracking tries them. *)

Record mstate := mkMstate {
  m_pre : list ascii;
  m_rest : list ascii;
  m_caps : list (nat * list ascii)
}.

Definition canonicalize (ic : bool) (c : ascii) : ascii :=
  if ic then upper_char c else c.

Definition class_atom_has (a : class_atom) (c : ascii) : bool :=
  match a with
  | CAChar x => ascii_eqb x c
  | CARange lo hi => (code lo <=? code c)%N && (code c <=? code hi)%N
  | CADigit neg => xorb neg (is_digit c)
  | CAWord neg => xorb neg (is_word c)
  | CASpace neg => xorb neg (is_space c)
  end.

(** The code units whose canonical form is the one of [c]. *)
Definition case_variants (ic : bool) (c : ascii) : list ascii :=
  if ic then [c; upper_char c; lower_char c] else [c].

Definition class_has (ic : bool) (neg : bool) (items : list class_atom) (c : ascii) : bool :=
  xorb neg (existsb (fun a => existsb (class_atom_has a) (case_variants ic c)) items).

Definition is_word_at (s : list ascii) : bool :=
  match s with
  | [] => false
  | c :: _ => is_word c
  end.

Definition consume (p : ascii -> bool) (st : mstate) : list mstate :=
  match m_rest st with
  | [] => []
  | x :: rest => if p x then [mkMstate (x :: m_pre st) rest (m_caps st)] else []
  end.

Fixpoint groups_in (r : regex) : list nat :=
  match r with
  | RSeq r1 r2 | RAlt r1 r2 => groups_in r1 ++ groups_in r2
  | RRepeat _ _ _ r1 => groups_in r1
  | RGroup i r1 => i :: groups_in r1
  | _ => []
  end.

Definition clear_caps (gs : list nat) (st : mstate) : mstate :=
  mkMstate (m_pre st) (m_rest st)
           (List.filter (fun kv => negb (existsb (Nat.eqb (fst kv)) gs)) (m_caps st)).

Definition hi_pred (hi : option nat) : option nat :=
  match hi with
  | Some n => Some (Nat.pred n)
  | None => None
  end.

(** The iterations of a quantifier.  An iteration past the minimum that
    consumes nothing is refused, so [fuel] bounds the optional iterations by
    the text ahead. *)
Fixpoint repeat_loop (one : mstate -> list mstate) (greedy : bool)
    (fuel : nat) (lo : nat) (hi : option nat) (st : mstate) : list mstate :=
  match hi with
  | Some O => [st]
  | _ =>
      match fuel with
      | O => [st]
      | S fuel' =>
          let again :=
            flat_map (fun st' =>
                        if Nat.eqb lo 0 && Nat.eqb (length (m_rest st')) (length (m_rest st))
                        then []
                        else repeat_loop one greedy fuel' (Nat.pred lo) (hi_pred hi) st')
                     (one st) in
          if negb (Nat.eqb lo 0) then again
          else if greedy then again ++ [st] else st :: again
      end
  end.

Fixpoint rmatch (ic : bool) (r : regex) (st : mstate) : list mstate :=
  match r with
  | REmpty => [st]
  | RChar c => consume (fun x => ascii_eqb (canonicalize ic x) (canonicalize ic c)) st
  | RAny => consume (fun x => negb (is_line_terminator x)) st
  | RClass neg items => consume (class_has ic neg items) st
  | RBol => match m_pre st with [] => [st] | _ :: _ => [] end
  | REol => match m_rest st with [] => [st] | _ :: _ => [] end
  | RWordBoundary neg =>
      if xorb neg (xorb (is_word_at (m_pre st)) (is_word_at (m_rest st))) then [st] else []
  | RSeq r1 r2 => flat_map (rmatch ic r2) (rmatch ic r1 st)
  | RAlt r1 r2 => rmatch ic r1 st ++ rmatch ic r2 st
  | RRepeat lo hi greedy r1 =>
      repeat_loop (fun s => rmatch ic r1 (clear_caps (groups_in r1) s)) greedy
                  (lo + length (m_rest st) + 1) lo hi st
  | RGroup i r1 =>
      map (fun st' =>
             mkMstate (m_pre st') (m_rest st')
                      ((i, take (length (m_rest st) - length (m_rest st')) (m_rest st))
                         :: m_caps st'))
          (rmatch ic r1 st)
  end.

(** ** Regular expressions: [RegExp] objects, [String.prototype.replace] *)

Record regexp := mkRegExp {
  re_body : regex;
  re_ngroups : nat;
  re_global : bool;
  re_ignoreCase : bool
}.

(** The flags [g] and [i]; the other flags of the language ([d], [m], [s],
    [u], [v], [y]) are outside the fragment; a repeated or unknown flag is a
    SyntaxError. *)
Fixpoint parse_flags (fs : list ascii) (g i : bool) : completion (bool * bool) :=
  match fs with
  | [] => Normal (g, i)
  | f :: fs' =>
      if ascii_eqb f "g" then (if g then Throw SyntaxError else parse_flags fs' true i)
      else if ascii_eqb f "i" then (if i then Throw SyntaxError else parse_flags fs' g true)
      else if existsb (ascii_eqb f) (str "dmsuvy") then Unmodelled
      else Throw SyntaxError
  end.

Definition RegExp_new (pattern flags : list ascii) : completion regexp :=
  gi ← parse_flags flags false false;
  rn ← parse_pattern pattern;
  Normal (mkRegExp (fst rn) (snd rn) (fst gi) (snd gi)).

Definition capture (caps : list (nat * list ascii)) (n : nat) : list ascii :=
  match List.find (fun kv => Nat.eqb (fst kv) n) caps with
  | Some kv => snd kv
  | None => []
  end.

Definition digit_of (c : ascii) : nat := N.to_nat (code c - 48).

(** GetSubstitution: the replacement template with its [$] references
    expanded ([$<] is literal when the pattern has no named group). *)
Fixpoint expand (ngroups : nat) (before matched after : list ascii)
    (caps : list (nat * list ascii)) (template : list ascii) : list ascii :=
  let continue := expand ngroups before matched after caps in
  match template with
  | [] => []
  | c :: t1 =>
      if negb (ascii_eqb c "$") then c :: continue t1
      else
        match t1 with
        | [] => [c]
        | d :: t2 =>
            if ascii_eqb d "$" then "$"%char :: continue t2
            else if ascii_eqb d "&" then matched ++ continue t2
            else if ascii_eqb d "`" then before ++ continue t2
            else if ascii_eqb d "'" then after ++ continue t2
            else if is_digit d then
              let one := digit_of d in
              let single :=
                if (1 <=? one)%nat && (one <=? ngroups)%nat
                then capture caps one ++ continue t2
                else c :: continue t1 in
              match t2 with
              | e :: t3 =>
                  if is_digit e then
                    let two := (10 * one + digit_of e)%nat in
                    if (ngroups <? two)%nat then single
                    else if (1 <=? two)%nat then capture caps two ++ continue t3
                    else c :: continue t1
                  else single
              | [] => single
              end
            else c :: continue t1
        end
  end.

(** The replacement for the match that starts at [pre | s] and ends in
    [st']. *)
Definition substitution (re : regexp) (template pre s : list ascii) (st' : mstate)
    : list ascii :=
  expand (re_ngroups re) (rev pre)
         (take (length s - length (m_rest st')) s) (m_rest st') (m_caps st') template.

(** The scan of [replace]: [pre] is the text passed, [s] the text ahead,
    [skip] the number of code units ahead that belong to the last match.
    [active] is false once a regex without [g] has replaced its match. *)
Fixpoint replace_scan (re : regexp) (template : list ascii) (active : bool)
    (pre s : list ascii) (skip : nat) : list ascii :=
  match s with
  | [] =>
      if active && Nat.eqb skip 0 then
        match rmatch (re_ignoreCase re) (re_body re) (mkMstate pre [] []) with
        | st' :: _ => substitution re template pre [] st'
        | [] => []
        end
      else []
  | c :: s' =>
      match skip with
      | S k => replace_scan re template active (c :: pre) s' k
      | O =>
          if active then
            match rmatch (re_ignoreCase re) (re_body re) (mkMstate pre s []) with
            | st' :: _ =>
                let n := (length s - length (m_rest st'))%nat in
                substitution re template pre s st' ++
                  match n with
                  | O => c :: replace_scan re template (re_global re) (c :: pre) s' 0
                  | S k => replace_scan re template (re_global re) (c :: pre) s' k
                  end
            | [] => c :: replace_scan re template active (c :: pre) s' 0
            end
          else c :: replace_scan re template active (c :: pre) s' 0
      end
  end.

(** ** Values *)

Inductive number := NaN | Inf (neg : bool) | Fin (q : Q).

(** The primitive values a field of a record can hold.  Arrays and objects
    are not represented. *)
Inductive value :=
| VUndefined
| VNull
| VBool (b : bool)
| VNum (n : number)
| VStr (s : list ascii).

Definition ToBoolean (v : value) : bool :=
  match v with
  | VUndefined | VNull => false
  | VBool b => b
  | VNum NaN => false
  | VNum (Inf _) => true
  | VNum (Fin q) => negb (Qeq_bool q 0)
  | VStr s => negb (Nat.eqb (length s) 0)
  end.

(** The receiver of a string method call [v.m(...)]: on [undefined] and
    [null] the property access throws, on a boolean or a number the property
    is absent and the call throws. *)
Definition string_receiver (v : value) : completion (list ascii) :=
  match v with
  | VStr s => Normal s
  | _ => Throw TypeError
  end.

Definition String_toLowerCase (this : value) : completion (list ascii) :=
  s ← string_receiver this; Normal (toLowerCase s).

Definition String_trim (this : value) : completion (list ascii) :=
  s ← string_receiver this; Normal (trim s).

Definition String_replace (this : value) (re : regexp) (template : list ascii)
    : completion (list ascii) :=
  s ← string_receiver this; Normal (replace_scan re template true [] s 0).

(** ** [normalizeString] and [highlightText] (SearchUI.js, lines 31-44) *)

Definition normalizeString (v : value) : completion (list ascii) :=
  if negb (ToBoolean v) then Normal []
  else
    lowered ← String_toLowerCase v;
    re ← RegExp_new (str "[^\w\s&]") (str "g");
    stripped ← String_replace (VStr lowered) re [];
    String_trim (VStr stripped).

Definition highlightText (text : value) (searchTerm : list ascii) : completion value :=
  trimmed ← String_trim (VStr searchTerm);
  if negb (ToBoolean (VStr trimmed)) then Normal text
  else
    meta ← RegExp_new (str "[.*+?^${}()|[\]\\]") (str "g");
    escaped ← String_replace (VStr searchTerm) meta (str "\$&");
    regex ← RegExp_new (str "(" ++ escaped ++ str ")") (str "gi");
    marked ← String_replace text regex (str "<mark>$1</mark>");
    Normal (VStr marked).

(** ** Numbers: subtraction, [ToNumber], [parseInt] *)

Definition num_sub (a b : number) : number :=
  match a, b with
  | NaN, _ | _, NaN => NaN
  | Inf s, Inf t => if Bool.eqb s t then NaN else Inf s
  | Inf s, Fin _ => Inf s
  | Fin _, Inf t => Inf (negb t)
  | Fin x, Fin y => Fin (x - y)
  end.

Fixpoint takewhile {A} (p : A -> bool) (l : list A) : list A :=
  match l with
  | [] => []
  | x :: l' => if p x then x :: takewhile p l' else []
  end.

Definition digits_Z (ds : list ascii) : Z := Z.of_N (digits_value ds 0).

Definition signed (neg : bool) (q : Q) : Q := if neg then Qopp q else q.

Definition strip_sign (s : list ascii) : bool * list ascii :=
  match s with
  | c :: s' => if ascii_eqb c "-" then (true, s')
               else if ascii_eqb c "+" then (false, s')
               else (false, s)
  | [] => (false, [])
  end.

Definition str_eqb (a b : list ascii) : bool :=
  Nat.eqb (length a) (length b) && forallb (fun p => ascii_eqb (fst p) (snd p)) (combine a b).

(** StrDecimalLiteral without its sign: digits, an optional fraction and an
    optional exponent, with a digit before or after the point. *)
Definition parse_exponent (s : list ascii) : option Z :=
  match s with
  | [] => Some 0%Z
  | e :: s' =>
      if ascii_eqb e "e" || ascii_eqb e "E" then
        let (neg, ds) := strip_sign s' in
        if negb (Nat.eqb (length ds) 0) && forallb is_digit ds
        then Some (if neg then (- digits_Z ds)%Z else digits_Z ds)
        else None
      else None
  end.

Definition pow10 (e : Z) : Q :=
  if (0 <=? e)%Z then inject_Z (10 ^ e) else Qinv (inject_Z (10 ^ (- e))).

Definition parse_decimal (s : list ascii) : option Q :=
  let ip := takewhile is_digit s in
  let r1 := dropwhile is_digit s in
  let '(fp, r2) := match r1 with
                   | c :: r => if ascii_eqb c "." then (takewhile is_digit r, dropwhile is_digit r)
                               else ([], r1)
                   | [] => ([], [])
                   end in
  if Nat.eqb (length ip + length fp) 0 then None
  else match parse_exponent r2 with
       | Some e => Some (Qred (inject_Z (digits_Z (ip ++ fp)) * pow10 (e - Z.of_nat (length fp))))
       | None => None
       end.

(** NonDecimalIntegerLiteral: [0x], [0o], [0b] and their digits. *)
Definition digit_in_base (base : N) (c : ascii) : option N :=
  let v := if is_digit c then Some (code c - 48)%N
           else if in_range 97 102 c then Some (code c - 87)%N
           else if in_range 65 70 c then Some (code c - 55)%N
           else None in
  match v with
  | Some d => if (d <? base)%N then Some d else None
  | None => None
  end.

Fixpoint based_value (base : N) (ds : list ascii) (acc : N) : option N :=
  match ds with
  | [] => Some acc
  | d :: ds' => match digit_in_base base d with
                | Some v => based_value base ds' (acc * base + v)%N
                | None => None
                end
  end.

Definition parse_nondecimal (s : list ascii) : option Q :=
  match s with
  | z :: p :: d :: ds =>
      if ascii_eqb z "0" then
        let base := if ascii_eqb (lower_char p) "x" then Some 16%N
                    else if ascii_eqb (lower_char p) "o" then Some 8%N
                    else if ascii_eqb (lower_char p) "b" then Some 2%N
                    else None in
        match base with
        | Some b => match based_value b (d :: ds) 0 with
                    | Some v => Some (inject_Z (Z.of_N v))
                    | None => None
                    end
        | None => None
        end
      else None
  | _ => None
  end.

(** [Number(string)].  The result is the rational the literal denotes; the
    language rounds it to binary64. *)
Definition StringToNumber (s : list ascii) : number :=
  let t := trim s in
  if Nat.eqb (length t) 0 then Fin 0
  else match parse_nondecimal t with
       | Some q => Fin q
       | None =>
           let (neg, u) := strip_sign t in
           if str_eqb u (str "Infinity") then Inf neg
           else match parse_decimal u with
                | Some q => Fin (signed neg q)
                | None => NaN
                end
       end.

Definition ToNumber (v : value) : number :=
  match v with
  | VUndefined => NaN
  | VNull => Fin 0
  | VBool b => if b then Fin 1 else Fin 0
  | VNum n => n
  | VStr s => StringToNumber s
  end.

(** [parseInt(string, 10)]: leading whitespace, a sign, then the longest
    run of decimal digits; [NaN] when there is none.  The result is the
    integer the digits denote; the language rounds it to binary64, which
    changes nothing up to 2^53. *)
Definition parseInt_string (s : list ascii) : number :=
  let (neg, u) := strip_sign (trimStart s) in
  match takewhile is_digit u with
  | [] => NaN
  | ds => Fin (signed neg (inject_Z (digits_Z ds)))
  end.

(** The first decimal digit of a positive rational. *)
Fixpoint leading_digit_Z (fuel : nat) (z : Z) : Z :=
  match fuel with
  | O => z
  | S fuel' => if (z <? 10)%Z then z else leading_digit_Z fuel' (z / 10)
  end.

Fixpoint leading_digit_small (fuel : nat) (q : Q) : Z :=
  match fuel with
  | O => Qfloor q
  | S fuel' => if Qle_bool 1 q then Qfloor q else leading_digit_small fuel' (q * 10)
  end.

(** [parseInt] of a number goes through its decimal rendering: digits up to
    the point for magnitudes from 1e-6 up to 1e21 (the truncation), and the
    exponent notation outside, of which [parseInt] reads the first digit. *)
Definition parseInt_number (n : number) : number :=
  match n with
  | NaN | Inf _ => NaN
  | Fin q =>
      let a := Qabs q in
      let neg := Qle_bool q 0 && negb (Qeq_bool q 0) in
      if Qeq_bool q 0 then Fin 0
      else if Qle_bool (inject_Z (10 ^ 21)) a then
        Fin (signed neg (inject_Z (leading_digit_Z (Z.to_nat (Z.log2 (Qfloor a))) (Qfloor a))))
      else if Qle_bool (1 # 1000000) a then
        Fin (signed neg (inject_Z (Qfloor a)))
      else
        Fin (signed neg (inject_Z (leading_digit_small (Pos.size_nat (Qden q)) a)))
  end.

Definition parseInt (v : value) : number :=
  match v with
  | VUndefined => parseInt_string (str "undefined")
  | VNull => parseInt_string (str "null")
  | VBool b => parseInt_string (str (if b then "true" else "false"))
  | VNum n => parseInt_number n
  | VStr s => parseInt_string s
  end.

Definition num_eqb (a b : number) : bool :=
  match a, b with
  | Fin x, Fin y => Qeq_bool x y
  | Inf s, Inf t => Bool.eqb s t
  | _, _ => false
  end.

(** [===] on primitive values. *)
Definition strict_eq (a b : value) : bool :=
  match a, b with
  | VUndefined, VUndefined | VNull, VNull => true
  | VBool x, VBool y => Bool.eqb x y
  | VNum x, VNum y => num_eqb x y
  | VStr s, VStr t => str_eqb s t
  | _, _ => false
  end.

(** ** Arrays: [filter], [sort], [slice] *)

Section Arrays.
Context {A : Type}.

Fixpoint Array_filter (p : A -> completion bool) (l : list A) : completion (list A) :=
  match l with
  | [] => Normal []
  | x :: l' =>
      b ← p x;
      rest ← Array_filter p l';
      Normal (if b : bool then x :: rest else rest)
  end.

(** SortCompare: the comparator's number, [NaN] read as [+0]. *)
Definition SortCompare (comparefn : A -> A -> number) (x y : A) : comparison :=
  match comparefn x y with
  | NaN => Eq
  | Inf neg => if neg then Lt else Gt
  | Fin q => (q ?= 0)%Q
  end.

Fixpoint sort_insert (comparefn : A -> A -> number) (x : A) (l : list A) : list A :=
  match l with
  | [] => [x]
  | y :: l' =>
      match SortCompare comparefn x y with
      | Gt => y :: sort_insert comparefn x l'
      | _ => x :: l
      end
  end.

(** [Array.prototype.sort] is a stable sort whose comparisons go through
    SortCompare.  For a comparator that is not consistent (one that returns
    [NaN]) the language leaves the order to the implementation; the model
    commits to insertion, each element placed before the first later
    element it does not compare greater than, and is the language's sort
    for consistent comparators only. *)
Fixpoint Array_sort (comparefn : A -> A -> number) (l : list A) : list A :=
  match l with
  | [] => []
  | x :: l' => sort_insert comparefn x (Array_sort comparefn l')
  end.

(** [slice(start, end)] with integer arguments: a negative index counts
    from the end, and both are clamped to the array. *)
Definition relative_index (len i : Z) : Z :=
  if (i <? 0)%Z then Z.max (len + i) 0 else Z.min i len.

Definition Array_slice (l : list A) (start stop : Z) : list A :=
  let len := Z.of_nat (length l) in
  let k := relative_index len start in
  let final := relative_index len stop in
  take (Z.to_nat (final - k)) (drop (Z.to_nat k) l).
End Arrays.

(** ** The [filteredData] effect (SearchUI.js, lines 118-144) *)

Abbreviation item := (gmap string value).

Definition field (it : item) (name : string) : value :=
  match it !! name with
  | Some v => v
  | None => VUndefined
  end.

Definition keep_item (selectedYear selectedPolicy : list ascii) (it : item)
    : completion bool :=
  let okYear := negb (ToBoolean (VStr selectedYear))
                || strict_eq (field it "year") (VStr selectedYear) in
  okPolicy ← (if negb (ToBoolean (VStr selectedPolicy)) then Normal true
              else
                a ← normalizeString (field it "policy_area");
                b ← normalizeString (VStr selectedPolicy);
                Normal (str_eqb a b));
  Normal (okYear && okPolicy).

Definition by_score (a b : item) : number :=
  num_sub (ToNumber (field b "score")) (ToNumber (field a "score")).

Definition by_year (sortOrder : list ascii) (a b : item) : number :=
  let yA := parseInt (field a "year") in
  let yB := parseInt (field b "year") in
  if str_eqb sortOrder (str "newest") then num_sub yB yA else num_sub yA yB.

Definition filteredData_effect (rawData : list item) (rawResults : option (list item))
    (selectedYear selectedPolicy sortOrder : list ascii) : completion (list item) :=
  let list := match rawResults with
              | Some results => results
              | None => rawData
              end in
  list ← Array_filter (keep_item selectedYear selectedPolicy) list;
  Normal (match rawResults with
          | Some _ => Array_sort by_score list
          | None => Array_sort (by_year sortOrder) list
          end).

(** ** Pagination (SearchUI.js, lines 150-155) *)

Definition ITEMS_PER_PAGE : Z := 20.

Definition Math_ceil (q : Q) : Z := Qceiling q.

Definition totalPages (filteredData : list item) : Z :=
  Math_ceil (inject_Z (Z.of_nat (length filteredData)) / inject_Z ITEMS_PER_PAGE).

Definition currentPageData (filteredData : list item) (currentPage : Z) : list item :=
  Array_slice filteredData
              ((currentPage - 1) * ITEMS_PER_PAGE)
              ((currentPage - 1) * ITEMS_PER_PAGE + ITEMS_PER_PAGE).

(** ** The search session (SearchUI.js, lines 50-59 and 79-116) *)

(** What the [try] block of [handleSubmit] can end with, other than
    normally: [fetch] rejects (network error), [res.json()] rejects (the
    body is not JSON), or an exception is thrown. *)
Inductive failure :=
| FetchRejected
| JsonRejected
| Thrown (e : error).

Record state := mkState {
  rawData : list item;
  rawResults : option (list item);
  isLoading : bool;
  inputTerm : list ascii;
  searchTerm : list ascii;
  selectedYear : list ascii;
  selectedPolicy : list ascii;
  sortOrder : list ascii;
  currentPage : Z;
  console : list failure          (* the arguments of [console.error], last first *)
}.

Definition setRawResults (v : option (list item)) (st : state) : state :=
  mkState (rawData st) v (isLoading st) (inputTerm st) (searchTerm st)
          (selectedYear st) (selectedPolicy st) (sortOrder st) (currentPage st) (console st).
Definition setIsLoading (v : bool) (st : state) : state :=
  mkState (rawData st) (rawResults st) v (inputTerm st) (searchTerm st)
          (selectedYear st) (selectedPolicy st) (sortOrder st) (currentPage st) (console st).
Definition setInputTerm (v : list ascii) (st : state) : state :=
  mkState (rawData st) (rawResults st) (isLoading st) v (searchTerm st)
          (selectedYear st) (selectedPolicy st) (sortOrder st) (currentPage st) (console st).
Definition setSearchTerm (v : list ascii) (st : state) : state :=
  mkState (rawData st) (rawResults st) (isLoading st) (inputTerm st) v
          (selectedYear st) (selectedPolicy st) (sortOrder st) (currentPage st) (console st).
Definition setSelectedYear (v : list ascii) (st : state) : state :=
  mkState (rawData st) (rawResults st) (isLoading st) (inputTerm st) (searchTerm st)
          v (selectedPolicy st) (sortOrder st) (currentPage st) (console st).
Definition setSelectedPolicy (v : list ascii) (st : state) : state :=
  mkState (rawData st) (rawResults st) (isLoading st) (inputTerm st) (searchTerm st)
          (selectedYear st) v (sortOrder st) (currentPage st) (console st).
Definition setSortOrder (v : list ascii) (st : state) : state :=
  mkState (rawData st) (rawResults st) (isLoading st) (inputTerm st) (searchTerm st)
          (selectedYear st) (selectedPolicy st) v (currentPage st) (console st).
Definition setCurrentPage (v : Z) (st : state) : state :=
  mkState (rawData st) (rawResults st) (isLoading st) (inputTerm st) (searchTerm st)
          (selectedYear st) (selectedPolicy st) (sortOrder st) v (console st).
Definition console_error (e : failure) (st : state) : state :=
  mkState (rawData st) (rawResults st) (isLoading st) (inputTerm st) (searchTerm st)
          (selectedYear st) (selectedPolicy st) (sortOrder st) (currentPage st)
          (e :: console st).

(** The request [handleSubmit] issues: the query (before
    [encodeURIComponent]) and the limit. *)
Record request := mkRequest { req_q : list ascii; req_limit : Z }.

(** An element of [matches]: [null], or anything else, read through its
    [score] and the fields of its [metadata] (no field when [metadata] is
    absent). *)
Inductive smatch :=
| MatchNull
| Match (score : value) (metadata : option item).

(** How the awaited search ends: one of the two promises rejects, or the
    body is parsed; [matches] is [None] when the body has no array under
    that name. *)
Inductive response :=
| Rejected (e : failure)
| Body (matches : option (list smatch)).

(** [{ score: m.score, ...m.metadata }]: the fields of [metadata] are
    written after [score], so a [score] among them wins. *)
Definition enrich (m : smatch) : failure + item :=
  match m with
  | MatchNull => inl (Thrown TypeError)
  | Match score metadata =>
      inr (match metadata with
           | Some fields => fields ∪ {[ "score" := score ]}
           | None => {[ "score" := score ]}
           end)
  end.

Fixpoint Array_map_enrich (ms : list smatch) : failure + list item :=
  match ms with
  | [] => inr []
  | m :: ms' =>
      match enrich m with
      | inl e => inl e
      | inr it => match Array_map_enrich ms' with
                  | inl e => inl e
                  | inr its => inr (it :: its)
                  end
      end
  end.

(** The [try] block up to [const enriched]. *)
Definition enriched_of (r : response) : failure + list item :=
  match r with
  | Rejected e => inl e
  | Body None => inl (Thrown TypeError)
  | Body (Some ms) => Array_map_enrich ms
  end.

(** [handleSubmit] up to its [await]: the state it leaves and the request in
    flight, if any. *)
Definition handleSubmit_begin (st : state) : state * option request :=
  let q := trim (inputTerm st) in
  let st := setSearchTerm q st in
  if negb (ToBoolean (VStr q)) then (setRawResults None st, None)
  else (setIsLoading true st, Some (mkRequest q ITEMS_PER_PAGE)).

(** [handleSubmit] from the [await] on, run on the state of that moment. *)
Definition handleSubmit_settle (r : response) (st : state) : state :=
  let st := match enriched_of r with
            | inr enriched => setCurrentPage 1 (setRawResults (Some enriched) st)
            | inl err => console_error err st
            end in
  setIsLoading false st.

(** A submit whose search settles before any other event. *)
Definition handleSubmit (st : state) (r : response) : state :=
  match handleSubmit_begin st with
  | (st', Some _) => handleSubmit_settle r st'
  | (st', None) => st'
  end.

Definition handleShowAll (st : state) : state :=
  setCurrentPage 1
    (setSortOrder (str "newest")
       (setSelectedPolicy []
          (setSelectedYear []
             (setSearchTerm []
                (setInputTerm []
                   (setRawResults None st)))))).

(** The View: what the [filteredData] effect computes from a state. *)
Definition view (st : state) : completion (list item) :=
  filteredData_effect (rawData st) (rawResults st)
                      (selectedYear st) (selectedPolicy st) (sortOrder st).

(** [highlightText(item.text, searchTerm)], the markup of a record's text
    (SearchUI.js, line 479). *)
Definition renderText (st : state) (it : item) : completion value :=
  highlightText (field it "text") (searchTerm st).

(** ** Page controls (SearchUI.js, lines 344-392)

    The controls are rendered when [filteredData] is not empty.  [goToPage]
    is the submit handler of the page number form, on the text of the
    input. *)

Definition prevPage (st : state) : state :=
  setCurrentPage (Z.max (currentPage st - 1) 1) st.

Definition nextPage (filteredData : list item) (st : state) : state :=
  setCurrentPage (Z.min (currentPage st + 1) (totalPages filteredData)) st.

(** [v >= 1 && v <= totalPages] is false for [NaN]; [parseInt] returns an
    integer otherwise, which [Qfloor] reads back. *)
Definition goToPage (filteredData : list item) (value : list ascii) (st : state) : state :=
  match parseInt_string value with
  | Fin v =>
      if Qle_bool 1 v && Qle_bool v (inject_Z (totalPages filteredData))
      then setCurrentPage (Qfloor v) st
      else st
  | _ => st
  end.

(** ** The year options (SearchUI.js, lines 272-284) *)

(** The decimal digits of a natural number, last digit first. *)
Fixpoint digits_rev (fuel : nat) (n : N) : list ascii :=
  match fuel with
  | O => []
  | S fuel' =>
      ascii_of_N (48 + n mod 10)
        :: (if (n <? 10)%N then [] else digits_rev fuel' (n / 10))
  end.

Definition N_digits (n : N) : list ascii :=
  rev (digits_rev (S (N.to_nat (N.log2 n))) n).

(** The rendering of an integer of 22 digits or more: first digit, the
    others up to the last non-zero one after a point, and the exponent. *)
Definition exponent_form (ds : list ascii) : list ascii :=
  match ds with
  | [] => []
  | d :: rest =>
      let fraction := rev (dropwhile (fun c => ascii_eqb c "0") (rev rest)) in
      (d :: match fraction with [] => [] | _ :: _ => "."%char :: fraction end)
        ++ str "e+" ++ N_digits (N.of_nat (length rest))
  end.

(** [Number.prototype.toString] on an integer. *)
Definition Number_toString_int (z : Z) : list ascii :=
  let ds := N_digits (Z.abs_N z) in
  let body := if (Z.abs z <? 10 ^ 21)%Z then ds else exponent_form ds in
  if (z <? 0)%Z then "-"%char :: body else body.

(** [Array.from({ length: thisYear - 2015 }, (_, i) => thisYear - i)]; a
    negative length is read as 0. *)
Definition yearOptions (thisYear : Z) : list Z :=
  map (fun i => (thisYear - Z.of_nat i)%Z) (seq 0 (Z.to_nat (thisYear - 2015))).

(** The [value] of each option, [y.toString()]. *)
Definition yearOptionValues (thisYear : Z) : list (list ascii) :=
  map Number_toString_int (yearOptions thisYear).

(** ** Definitions used in the statements *)

(** The candidate sequence of the effect. *)
Definition candidates (rawData : list item) (rawResults : option (list item)) : list item :=
  match rawResults with
  | Some results => results
  | None => rawData
  end.

(** What [[^\w\s&]] leaves in place: an ASCII letter, a digit, an underscore,
    whitespace, or [&]. *)
Definition keeps (c : ascii) : bool :=
  is_upper c || is_lower c || is_digit c || ascii_eqb c "_" || is_space c || ascii_eqb c "&".

Definition normalize_amended (s : list ascii) : list ascii :=
  trim (List.filter keeps (toLowerCase s)).

(** Following the spec's words: a letter, a digit, whitespace or [&] stays.
    The letters below 256 are the ASCII letters, the accented letters and
    the ordinal indicators, micro and sharp s. *)
Definition is_letter (c : ascii) : bool :=
  is_upper c || is_lower c || is_upper_latin1 c || is_lower_latin1 c
  || existsb (fun n => (code c =? n)%N) [170; 181; 186; 223; 255]%N.

Definition keeps_as_claimed (c : ascii) : bool :=
  is_letter c || is_digit c || is_space c || ascii_eqb c "&".

Definition normalize_as_claimed (s : list ascii) : list ascii :=
  trim (List.filter keeps_as_claimed (toLowerCase s)).

(** The metacharacters [highlightText] escapes. *)
Definition is_meta (c : ascii) : bool := existsb (ascii_eqb c) (str ".*+?^${}()|[]\").

Definition escapeRegExp (term : list ascii) : list ascii :=
  flat_map (fun c => if is_meta c then ["\"%char; c] else [c]) term.

(** The regex that matches the code units of [term], one after the other. *)
Definition literal (term : list ascii) : regex := seq_regex (rev (map RChar term)).

(** [term] read at the head of [text], case folded: the text after it. *)
Fixpoint ci_prefix (term text : list ascii) : option (list ascii) :=
  match term with
  | [] => Some text
  | c :: term' =>
      match text with
      | x :: text' =>
          if ascii_eqb (upper_char x) (upper_char c) then ci_prefix term' text' else None
      | [] => None
      end
  end.

(** The literal search: left to right, every occurrence of [term] that does
    not overlap the one before is wrapped, the rest is copied. *)
Fixpoint mark_occurrences (term text : list ascii) (skip : nat) : list ascii :=
  match text with
  | [] => []
  | c :: text' =>
      match skip with
      | S k => mark_occurrences term text' k
      | O =>
          match ci_prefix term text with
          | Some _ => str "<mark>" ++ take (length term) text ++ str "</mark>"
                        ++ mark_occurrences term text' (length term - 1)
          | None => c :: mark_occurrences term text' 0
          end
      end
  end.

Definition is_blank (term : list ascii) : bool := forallb is_space term.

(** The order of numbers; [NaN] is not ordered. *)
Definition num_leb (a b : number) : bool :=
  match a, b with
  | NaN, _ | _, NaN => false
  | Inf true, _ => true
  | _, Inf false => true
  | Inf false, _ => false
  | _, Inf true => false
  | Fin x, Fin y => Qle_bool x y
  end.

Definition year_of (it : item) : number := parseInt (field it "year").

Definition descending (k : item -> number) (a b : item) : Prop := num_leb (k b) (k a) = true.

(** Following the spec's words: years compared as integers, a non-numeric or
    missing year as the lowest possible value. *)
Definition year_leb_lowest (a b : item) : bool :=
  match year_of a, year_of b with
  | NaN, _ => true
  | _, NaN => false
  | x, y => num_leb x y
  end.

Definition newest_first_as_claimed (a b : item) : Prop := year_leb_lowest b a = true.

(** A field the pipeline can normalize: a string, or a falsy value. *)
Definition string_or_falsy (v : value) : bool :=
  match v with
  | VStr _ => true
  | _ => negb (ToBoolean v)
  end.

Definition policy_typed (it : item) : Prop := string_or_falsy (field it "policy_area") = true.

(** The filter of the effect as a boolean, for records with a typed policy
    area. *)
Definition passes (selectedYear selectedPolicy : list ascii) (it : item) : bool :=
  (Nat.eqb (length selectedYear) 0 || strict_eq (field it "year") (VStr selectedYear))
  && (Nat.eqb (length selectedPolicy) 0
      || match field it "policy_area" with
         | VStr s => str_eqb (normalize_amended s) (normalize_amended selectedPolicy)
         | _ => str_eqb [] (normalize_amended selectedPolicy)
         end).

(** The normal form the policy filter compares: for a string, its lower
    case without the code units [keeps] refuses and without outer
    whitespace; the empty string for a falsy value. *)
Definition policy_key (v : value) : list ascii :=
  match v with
  | VStr s => trim (List.filter keeps (toLowerCase s))
  | _ => []
  end.

(** A year that the model and binary64 read alike: a string whose digits
    denote an integer of magnitude at most 2^53, or a number that is such an
    integer. *)
Definition exact_year (it : item) : Prop :=
  exists z, (Z.abs z <= 2 ^ 53)%Z
            /\ year_of it = Fin (inject_Z z)
            /\ match field it "year" with
               | VStr _ => True
               | VNum n => n = Fin (inject_Z z)
               | _ => False
               end.

(** The comparator [(a, b) => k(b) - k(a)]. *)
Definition desc_cmp {A} (k : A -> number) (x y : A) : number := num_sub (k y) (k x).

Definition head_stays {A} (p : A -> bool) (l : list A) : Prop :=
  match l with
  | [] => True
  | x :: _ => p x = false
  end.

(** Records and a state for the examples. *)
Definition record (year policy_area : string) (score : Q) : item :=
  {[ "year" := VStr (str year); "policy_area" := VStr (str policy_area);
     "score" := VNum (Fin score) ]}.

Definition browsing : state :=
  mkState [record "2024" "Merger" 0] None false (str " cartel ") [] [] [] (str "newest") 1 [].

Definition four_cases : list item :=
  [record "2024" "Antitrust " 0; record "2020" "Merger" 0;
   record "2020" "ANTI-TRUST" 0; record "2024" "Merger" 0].

Definition no_year : item := {[ "year" := VStr (str "n/a") ]}.
Definition year_2024 : item := {[ "year" := VStr (str "2024") ]}.

Definition twentyfive : list item := repeat (record "2024" "Merger" 0) 25.

Definition blank_box : state :=
  mkState [record "2024" "Merger" 0] (Some [record "2023" "Merger" (1 # 2)]) false
          (str "  ") (str "cartel") (str "2023") [] (str "oldest") 1 [].

Definition filtered_search : state :=
  mkState [record "2019" "Merger" 0; record "2024" "Merger" 0; record "2021" "Antitrust" 0]
          (Some [record "2023" "Merger" (1 # 2)]) false
          (str "cartel") (str "cartel") (str "2023") (str "Merger") (str "oldest") 2 [].

Definition one_match : list smatch :=
  [Match (VNum (Fin (9 # 10))) (Some (record "2022" "Antitrust" (1 # 10)))].

(** * Proofs *)

Ltac each_ascii c := destruct c as [[] [] [] [] [] [] [] []].

Lemma consume_cons p pre c s caps :
  consume p (mkMstate pre (c :: s) caps) =
  if p c then [mkMstate (c :: pre) s caps] else [].
Proof. reflexivity. Qed.

Lemma length_cons_sub {A} (c : A) (s : list A) : (length (c :: s) - length s)%nat = 1%nat.
Proof. simpl. lia. Qed.

Lemma replace_scan_class neg items n ic template f :
  (forall before c after caps, expand n before [c] after caps template = f c) ->
  forall s pre,
    replace_scan (mkRegExp (RClass neg items) n true ic) template true pre s 0 =
    flat_map (fun c => if class_has ic neg items c then f c else [c]) s.
Proof.
  intros Hf s. induction s as [|c s IH]; intros pre.
  - reflexivity.
  - cbn [replace_scan re_ignoreCase re_body re_global rmatch flat_map].
    rewrite consume_cons. destruct (class_has ic neg items c).
    + cbn [m_rest]. unfold substitution. cbn [m_rest m_caps re_ngroups].
      rewrite length_cons_sub. cbn [take]. rewrite Hf, IH. reflexivity.
    + cbn [app]. rewrite IH. reflexivity.
Qed.

Lemma ascii_eqb_eq a b : ascii_eqb a b = true <-> a = b.
Proof.
  unfold ascii_eqb, code. rewrite N.eqb_eq. split; [|congruence].
  intros H. rewrite <- (ascii_N_embedding a), <- (ascii_N_embedding b). congruence.
Qed.

Lemma ascii_eqb_refl a : ascii_eqb a a = true.
Proof. apply ascii_eqb_eq. reflexivity. Qed.

Lemma word_class_keeps c :
  class_has false true [CAWord false; CASpace false; CAChar "&"] c = negb (keeps c).
Proof. each_ascii c; reflexivity. Qed.

Lemma lower_char_idem c : lower_char (lower_char c) = lower_char c.
Proof. each_ascii c; reflexivity. Qed.

Lemma flat_map_filter {A} (p : A -> bool) (l : list A) :
  flat_map (fun c => if negb (p c) then [] else [c]) l = List.filter p l.
Proof. induction l as [|x l IH]; simpl; [reflexivity|]. destruct (p x); simpl; congruence. Qed.

Lemma normalizeString_string s :
  normalizeString (VStr s) = Normal (normalize_amended s).
Proof.
  unfold normalizeString, normalize_amended. destruct s as [|c s]; [reflexivity|].
  cbn [ToBoolean length Nat.eqb negb].
  change (RegExp_new (str "[^\w\s&]") (str "g"))
    with (Normal (mkRegExp (RClass true [CAWord false; CASpace false; CAChar "&"]) 0 true false)).
  cbn [String_toLowerCase string_receiver mbind completion_bind String_replace String_trim].
  rewrite (replace_scan_class _ _ _ _ _ (fun _ => [])) by reflexivity.
  f_equal. f_equal.
  rewrite <- flat_map_filter. apply flat_map_ext. intros a. rewrite word_class_keeps. reflexivity.
Qed.

Section Dropwhile.
Context {A : Type} (p : A -> bool).

Lemma dropwhile_head l : head_stays p (dropwhile p l).
Proof.
  induction l as [|x l IH]; simpl; [exact I|].
  destruct (p x) eqn:E; [exact IH | exact E].
Qed.

Lemma dropwhile_fix l : head_stays p l -> dropwhile p l = l.
Proof. destruct l as [|x l]; simpl; [reflexivity|]. intros ->. reflexivity. Qed.

Lemma dropwhile_suffix l : exists k, l = k ++ dropwhile p l.
Proof.
  induction l as [|x l [k IH]]; simpl.
  - exists []. reflexivity.
  - destruct (p x).
    + exists (x :: k). simpl. congruence.
    + exists []. reflexivity.
Qed.

Lemma dropwhile_Forall (P : A -> Prop) l : Forall P l -> Forall P (dropwhile p l).
Proof.
  induction 1 as [|x l Hx Hl IH]; simpl; [constructor|].
  destruct (p x); [exact IH | constructor; assumption].
Qed.
End Dropwhile.

Lemma trimEnd_prefix s : exists k, s = trimEnd s ++ k.
Proof.
  unfold trimEnd. destruct (dropwhile_suffix is_space (rev s)) as [k Hk].
  exists (rev k). rewrite <- rev_app_distr, <- Hk, rev_involutive. reflexivity.
Qed.

Lemma trim_fix s :
  head_stays is_space s -> head_stays is_space (rev s) -> trim s = s.
Proof.
  intros H1 H2. unfold trim, trimStart, trimEnd.
  rewrite (dropwhile_fix _ s H1), (dropwhile_fix _ _ H2). apply rev_involutive.
Qed.

Lemma trim_head s : head_stays is_space (trim s).
Proof.
  unfold trim. pose proof (dropwhile_head is_space s) as H. fold (trimStart s) in H.
  destruct (trimEnd_prefix (trimStart s)) as [k Hk].
  destruct (trimEnd (trimStart s)) as [|x l]; [exact I|].
  rewrite Hk in H. exact H.
Qed.

Lemma trim_last s : head_stays is_space (rev (trim s)).
Proof. unfold trim, trimEnd. rewrite rev_involutive. apply dropwhile_head. Qed.

Lemma trim_idem s : trim (trim s) = trim s.
Proof. apply trim_fix; [apply trim_head | apply trim_last]. Qed.

Lemma trim_Forall (P : ascii -> Prop) s : Forall P s -> Forall P (trim s).
Proof.
  intros H. unfold trim, trimEnd, trimStart.
  apply Forall_rev, dropwhile_Forall, Forall_rev, dropwhile_Forall, H.
Qed.

Lemma filter_fix {A} (p : A -> bool) l : Forall (fun x => p x = true) l -> List.filter p l = l.
Proof. induction 1 as [|x l Hx Hl IH]; simpl; [reflexivity|]. rewrite Hx, IH. reflexivity. Qed.

Lemma map_fix {A} (f : A -> A) l : Forall (fun x => f x = x) l -> map f l = l.
Proof. induction 1 as [|x l Hx Hl IH]; simpl; [reflexivity|]. rewrite Hx, IH. reflexivity. Qed.

Lemma normalize_amended_chars s :
  Forall (fun c => keeps c = true /\ lower_char c = c) (normalize_amended s).
Proof.
  unfold normalize_amended, toLowerCase. apply trim_Forall.
  rewrite List.Forall_forall. intros c Hc. apply List.filter_In in Hc as [Hin Hk].
  split; [exact Hk|]. apply List.in_map_iff in Hin as [x [<- _]]. apply lower_char_idem.
Qed.

Lemma normalize_amended_idem s : normalize_amended (normalize_amended s) = normalize_amended s.
Proof.
  pose proof (normalize_amended_chars s) as H.
  unfold normalize_amended at 1. unfold toLowerCase.
  rewrite map_fix, filter_fix.
  - apply trim_idem.
  - eapply List.Forall_impl; [|exact H]. intros c [Hk _]. exact Hk.
  - eapply List.Forall_impl; [|exact H]. intros c [_ Hl]. exact Hl.
Qed.

Lemma meta_class c :
  class_has false false
    [CAChar "."; CAChar "*"; CAChar "+"; CAChar "?"; CAChar "^"; CAChar "$"; CAChar "{";
     CAChar "}"; CAChar "("; CAChar ")"; CAChar "|"; CAChar "["; CAChar "]"; CAChar "\"] c
  = is_meta c.
Proof. each_ascii c; reflexivity. Qed.

Lemma escape_scan term :
  String_replace (VStr term)
    (mkRegExp (RClass false
       [CAChar "."; CAChar "*"; CAChar "+"; CAChar "?"; CAChar "^"; CAChar "$"; CAChar "{";
        CAChar "}"; CAChar "("; CAChar ")"; CAChar "|"; CAChar "["; CAChar "]"; CAChar "\"])
       0 true false) (str "\$&")
  = Normal (escapeRegExp term).
Proof.
  unfold String_replace. cbn [string_receiver mbind completion_bind].
  rewrite (replace_scan_class _ _ _ _ _ (fun c => ["\"%char; c])) by reflexivity.
  f_equal. apply flat_map_ext. intros c. rewrite meta_class. reflexivity.
Qed.

Lemma step_plain c st :
  p_mode st = MNormal -> is_meta c = false -> step st c = Normal (push_lit c st).
Proof.
  intros Hm Hc. unfold step. rewrite Hm. revert Hc.
  each_ascii c; first [discriminate | reflexivity].
Qed.

Lemma step_escaped c st :
  p_mode st = MNormal -> is_meta c = true ->
  steps st ["\"%char; c] = Normal (push_lit c st).
Proof.
  intros Hm Hc.
  assert (H1 : step st "\"%char = Normal (set_mode MEscape st))
    by (unfold step; rewrite Hm; reflexivity).
  assert (H2 : step (set_mode MEscape st) c = Normal (push_lit c st))
    by (revert Hc; each_ascii c; first [discriminate | reflexivity]).
  cbn [steps]. rewrite H1. cbn [mbind completion_bind]. rewrite H2. reflexivity.
Qed.

Lemma steps_app st a b : steps st (a ++ b) = st' ← steps st a; steps st' b.
Proof.
  revert st. induction a as [|x a IH]; intros st; simpl; [reflexivity|].
  destruct (step st x); simpl; auto.
Qed.

Lemma steps_escapeRegExp term st :
  p_mode st = MNormal ->
  steps st (escapeRegExp term) = Normal (fold_left (fun s c => push_lit c s) term st).
Proof.
  revert st. induction term as [|c term IH]; intros st Hm; [reflexivity|].
  cbn [escapeRegExp flat_map fold_left]. fold (escapeRegExp term).
  rewrite steps_app. destruct (is_meta c) eqn:Hc.
  - rewrite step_escaped by assumption. cbn. apply IH. reflexivity.
  - cbn [steps]. rewrite step_plain by assumption. cbn. apply IH. reflexivity.
Qed.

Lemma push_lits term st :
  p_mode st = MNormal ->
  fold_left (fun s c => push_lit c s) term st =
  mkPstate MNormal
    (mkFrame (f_group (p_top st)) (f_alts (p_top st))
       (rev (map RChar term) ++ f_seq (p_top st))
       (match term with [] => f_last (p_top st) | _ :: _ => LAtom end))
    (p_stack st) (p_groups st).
Proof.
  revert st. induction term as [|c term IH]; intros st Hm.
  - destruct st as [m [g a s l] stack n]. simpl in *. subst. reflexivity.
  - cbn [fold_left]. rewrite IH by reflexivity. cbn.
    rewrite <- app_assoc. cbn. destruct term; reflexivity.
Qed.

Lemma head_escapeRegExp term :
  match escapeRegExp term ++ [")"%char] with
  | x :: _ => ascii_eqb x "?" = false
  | [] => False
  end.
Proof.
  destruct term as [|c term]; [reflexivity|]. cbn [escapeRegExp flat_map].
  destruct (is_meta c) eqn:Hc; [reflexivity|]. cbn. revert Hc.
  each_ascii c; first [discriminate | reflexivity].
Qed.

Lemma parse_escaped term :
  parse_pattern (str "(" ++ escapeRegExp term ++ str ")") = Normal (RGroup 1 (literal term), 1%nat).
Proof.
  unfold parse_pattern. cbn [str list_ascii_of_string app steps].
  change (step _ "("%char)
    with (Normal (set_mode MGroupOpen (mkPstate MNormal (empty_frame None) [] 0))).
  cbn [mbind completion_bind].
  pose proof (head_escapeRegExp term) as Hh.
  destruct (escapeRegExp term ++ [")"%char]) as [|x xs] eqn:E; [contradiction|].
  assert (Hx : steps (set_mode MGroupOpen (mkPstate MNormal (empty_frame None) [] 0)) (x :: xs)
               = steps (open_group true (mkPstate MNormal (empty_frame None) [] 0)) (x :: xs)).
  { assert (H1 : step (set_mode MGroupOpen (mkPstate MNormal (empty_frame None) [] 0)) x
                 = step (open_group true (mkPstate MNormal (empty_frame None) [] 0)) x)
      by (unfold step; cbn [set_mode p_mode open_group]; rewrite Hh; reflexivity).
    cbn [steps]. rewrite H1. reflexivity. }
  rewrite Hx, <- E, steps_app, steps_escapeRegExp by reflexivity.
  cbn [mbind completion_bind]. rewrite push_lits by reflexivity.
  cbn. rewrite app_nil_r. reflexivity.
Qed.

Lemma seq_regex_snoc r rs x : seq_regex ((r :: rs) ++ [x]) = RSeq x (seq_regex (r :: rs)).
Proof. unfold seq_regex. cbn [app]. rewrite fold_left_app. reflexivity. Qed.

Lemma literal_cons c d term : literal (c :: d :: term) = RSeq (RChar c) (literal (d :: term)).
Proof.
  unfold literal. cbn [map rev].
  destruct (rev (map RChar term) ++ [RChar d]) as [|r rs] eqn:E.
  - destruct (rev (map RChar term)); discriminate.
  - apply seq_regex_snoc.
Qed.

Lemma ci_prefix_cons c term x text :
  ci_prefix (c :: term) (x :: text) =
  if ascii_eqb (upper_char x) (upper_char c) then ci_prefix term text else None.
Proof. reflexivity. Qed.

Lemma rmatch_literal term : forall pre text caps,
  rmatch true (literal term) (mkMstate pre text caps) =
  match ci_prefix term text with
  | Some rest => [mkMstate (rev (take (length term) text) ++ pre) rest caps]
  | None => []
  end.
Proof.
  induction term as [|c term IH]; intros pre text caps; [reflexivity|].
  destruct term as [|d term].
  - change (literal [c]) with (RChar c). cbn [rmatch].
    destruct text as [|x text]; [reflexivity|]. rewrite consume_cons, ci_prefix_cons.
    cbn [canonicalize].
    destruct (ascii_eqb (upper_char x) (upper_char c)); reflexivity.
  - rewrite literal_cons. cbn [rmatch].
    destruct text as [|x text]; [reflexivity|]. rewrite consume_cons, ci_prefix_cons.
    cbn [canonicalize].
    destruct (ascii_eqb (upper_char x) (upper_char c)); [|reflexivity].
    cbn [flat_map]. rewrite app_nil_r, IH.
    destruct (ci_prefix (d :: term) text); [|reflexivity].
    change (length (c :: d :: term)) with (S (length (d :: term))).
    cbn [take rev]. rewrite <- app_assoc. reflexivity.
Qed.

Lemma ci_prefix_length term : forall text rest,
  ci_prefix term text = Some rest -> length text = (length term + length rest)%nat.
Proof.
  induction term as [|c term IH]; intros text rest H; simpl in H.
  - injection H as <-. reflexivity.
  - destruct text as [|x text]; [discriminate|].
    destruct (ascii_eqb _ _); [|discriminate]. simpl. f_equal. apply IH, H.
Qed.

Lemma expand_mark before matched after m :
  expand 1 before matched after [(1%nat, m)] (str "<mark>$1</mark>")
  = str "<mark>" ++ m ++ str "</mark>".
Proof. reflexivity. Qed.

Lemma highlight_scan term : term <> [] -> forall text pre skip,
  replace_scan (mkRegExp (RGroup 1 (literal term)) 1 true true) (str "<mark>$1</mark>")
               true pre text skip
  = mark_occurrences term text skip.
Proof.
  intros Hne text. induction text as [|c text IH]; intros pre skip.
  - cbn [replace_scan re_ignoreCase re_body rmatch]. rewrite rmatch_literal.
    destruct term as [|d term]; [contradiction|]. destruct skip; reflexivity.
  - cbn [replace_scan mark_occurrences]. destruct skip as [|k]; [|apply IH].
    cbn [re_ignoreCase re_body re_global rmatch m_rest]. rewrite rmatch_literal.
    destruct (ci_prefix term (c :: text)) as [rest|] eqn:E.
    + cbn [map m_rest]. unfold substitution. cbn [m_rest m_caps re_ngroups].
      pose proof (ci_prefix_length _ _ _ E) as Hl.
      assert (Hn : (length (c :: text) - length rest)%nat = length term) by lia.
      rewrite Hn.
      destruct (length term) as [|n] eqn:Et.
      { destruct term; [contradiction | discriminate]. }
      rewrite IH, expand_mark. cbn [Nat.sub]. rewrite Nat.sub_0_r, <- !app_assoc. reflexivity.
    + cbn [map]. rewrite IH. reflexivity.
Qed.

Lemma Qcompare_sub_Gt x y : (x - y ?= 0)%Q = Gt <-> (y < x)%Q.
Proof.
  rewrite <- Qgt_alt. split; intros H.
  - apply Qlt_minus_iff. exact H.
  - apply Qlt_minus_iff in H. exact H.
Qed.

Section SortFacts.
Context {A : Type} (k : A -> number).

Lemma desc_cmp_Gt x y :
  k x <> NaN -> k y <> NaN ->
  SortCompare (desc_cmp k) x y = Gt -> num_leb (k x) (k y) = true.
Proof.
  unfold SortCompare, desc_cmp. intros Hx Hy.
  destruct (k x) as [|[]|p], (k y) as [|[]|q]; cbn; try congruence.
  intros H. apply Qcompare_sub_Gt in H. apply Qle_bool_iff, Qlt_le_weak, H.
Qed.

Lemma desc_cmp_not_Gt x y :
  k x <> NaN -> k y <> NaN ->
  SortCompare (desc_cmp k) x y <> Gt -> num_leb (k y) (k x) = true.
Proof.
  unfold SortCompare, desc_cmp. intros Hx Hy.
  destruct (k x) as [|[]|p], (k y) as [|[]|q]; cbn; try congruence.
  intros H. apply Qle_bool_iff. apply Qnot_lt_le. intros Hlt.
  apply H, Qcompare_sub_Gt, Hlt.
Qed.

End SortFacts.

Section SortGeneric.
Context {A : Type} (cmp : A -> A -> number).

Lemma sort_insert_perm x l : Permutation (sort_insert cmp x l) (x :: l).
Proof.
  induction l as [|y l IH]; cbn; [reflexivity|].
  destruct (SortCompare cmp x y); try reflexivity.
  rewrite IH. apply perm_swap.
Qed.

Lemma Array_sort_perm l : Permutation (Array_sort cmp l) l.
Proof.
  induction l as [|x l IH]; cbn; [reflexivity|].
  rewrite sort_insert_perm. constructor. exact IH.
Qed.

Lemma Array_sort_In x l : In x (Array_sort cmp l) <-> In x l.
Proof.
  split; apply Permutation_in; [|symmetry]; apply Array_sort_perm.
Qed.

Context (ok : A -> Prop) (le : A -> A -> Prop).
Hypothesis le_not_Gt : forall x y, ok x -> ok y -> SortCompare cmp x y <> Gt -> le x y.
Hypothesis le_Gt : forall x y, ok x -> ok y -> SortCompare cmp x y = Gt -> le y x.

Lemma sort_insert_Sorted x l :
  ok x -> Forall ok l -> Sorted le l -> Sorted le (sort_insert cmp x l).
Proof.
  intros Hx Hl Hs. induction l as [|y l IH]; cbn.
  - repeat constructor.
  - inversion Hl as [|? ? Hy Hl']; subst. inversion Hs as [|? ? Hs' Hhd]; subst.
    destruct (SortCompare cmp x y) eqn:E.
    + constructor; [exact Hs|]. constructor. apply le_not_Gt; congruence.
    + constructor; [exact Hs|]. constructor. apply le_not_Gt; congruence.
    + constructor; [apply IH; assumption|].
      destruct l as [|z l]; cbn.
      * constructor. apply le_Gt; assumption.
      * destruct (SortCompare cmp x z); constructor;
          first [ apply le_Gt; assumption | inversion Hhd; assumption ].
Qed.

Lemma Array_sort_Sorted l : Forall ok l -> Sorted le (Array_sort cmp l).
Proof.
  induction 1 as [|x l Hx Hl IH]; cbn; [constructor|].
  apply sort_insert_Sorted; [exact Hx| |exact IH].
  rewrite List.Forall_forall in *. intros y Hy. apply Hl, Array_sort_In, Hy.
Qed.

(** Stability: the elements of a class that never compares greater within
    itself keep their order. *)
Context (cls : A -> bool).
Hypothesis cls_not_Gt : forall x y, cls x = true -> cls y = true -> SortCompare cmp x y <> Gt.


End SortGeneric.

Lemma str_eqb_eq a b : str_eqb a b = true <-> a = b.
Proof.
  unfold str_eqb. revert b. induction a as [|x a IH]; intros [|y b]; cbn; try (split; [discriminate|congruence]).
  - split; reflexivity.
  - rewrite andb_true_iff in *. cbn. rewrite andb_true_iff, ascii_eqb_eq.
    specialize (IH b). rewrite andb_true_iff in IH. split.
    + intros [Hl [-> Hf]]. f_equal. apply IH. split; assumption.
    + intros [= -> ->]. split; [apply Nat.eqb_refl|]. split; [reflexivity|].
      apply IH. reflexivity.
Qed.

Lemma length_eqb_nil {A} (l : list A) : Nat.eqb (length l) 0 = true <-> l = [].
Proof. destruct l; cbn; split; congruence. Qed.

Lemma normalizeString_typed v :
  string_or_falsy v = true ->
  normalizeString v = Normal (match v with VStr s => normalize_amended s | _ => [] end).
Proof.
  destruct v as [| |b|n|s]; intros H; try reflexivity.
  - destruct b; [discriminate | reflexivity].
  - unfold normalizeString. unfold string_or_falsy in H. rewrite H. reflexivity.
  - apply normalizeString_string.
Qed.

Lemma keep_item_typed selectedYear selectedPolicy it :
  policy_typed it ->
  keep_item selectedYear selectedPolicy it = Normal (passes selectedYear selectedPolicy it).
Proof.
  intros Ht. unfold keep_item, passes. cbn [ToBoolean]. rewrite !negb_involutive.
  destruct (Nat.eqb (length selectedPolicy) 0); [reflexivity|].
  rewrite (normalizeString_typed _ Ht), normalizeString_string.
  cbn [mbind completion_bind]. destruct (field it "policy_area"); reflexivity.
Qed.

Lemma Array_filter_total {A} (p : A -> completion bool) (q : A -> bool) l :
  Forall (fun x => p x = Normal (q x)) l -> Array_filter p l = Normal (List.filter q l).
Proof.
  induction 1 as [|x l Hx Hl IH]; [reflexivity|]. cbn. rewrite Hx, IH. cbn.
  destruct (q x); reflexivity.
Qed.

Lemma strict_eq_string v s : strict_eq v (VStr s) = true <-> v = VStr s.
Proof.
  destruct v; cbn; try (split; [discriminate|congruence]).
  rewrite str_eqb_eq. split; congruence.
Qed.

Lemma passes_spec selectedYear selectedPolicy it :
  policy_typed it ->
  passes selectedYear selectedPolicy it = true <->
  (selectedYear = [] \/ field it "year" = VStr selectedYear)
  /\ (selectedPolicy = [] \/
      normalizeString (field it "policy_area") = normalizeString (VStr selectedPolicy)).
Proof.
  intros Ht. unfold passes.
  rewrite andb_true_iff, !orb_true_iff, !length_eqb_nil, strict_eq_string.
  rewrite (normalizeString_typed _ Ht), normalizeString_string.
  destruct (field it "policy_area"); rewrite str_eqb_eq;
    (split; intros [H1 [H2|H2]]; (split; [exact H1|]); first [left; exact H2 | right; congruence]).
Qed.

Lemma effect_typed rawData rawResults selectedYear selectedPolicy sortOrder :
  Forall policy_typed (match rawResults with Some r => r | None => rawData end) ->
  filteredData_effect rawData rawResults selectedYear selectedPolicy sortOrder =
  Normal (match rawResults with
          | Some r => Array_sort by_score (List.filter (passes selectedYear selectedPolicy) r)
          | None => Array_sort (by_year sortOrder)
                      (List.filter (passes selectedYear selectedPolicy) rawData)
          end).
Proof.
  intros Ht. unfold filteredData_effect.
  rewrite (Array_filter_total _ (passes selectedYear selectedPolicy)).
  - destruct rawResults; reflexivity.
  - eapply List.Forall_impl; [|exact Ht]. intros it. apply keep_item_typed.
Qed.

Lemma totalPages_div (l : list item) :
  totalPages l = ((Z.of_nat (length l) + 19) / 20)%Z.
Proof.
  unfold totalPages, Math_ceil, Qceiling, Qfloor, ITEMS_PER_PAGE.
  cbn [Qdiv Qmult Qinv inject_Z Qnum Qden Qopp Pos.mul].
  set (n := Z.of_nat (length l)).
  replace (- (n * 1))%Z with (- n)%Z by lia.
  change (Z.pos (1 * 20)) with 20%Z.
  pose proof (Z.div_mod (- n) 20 ltac:(lia)).
  pose proof (Z.mod_pos_bound (- n) 20 ltac:(lia)).
  pose proof (Z.div_mod (n + 19) 20 ltac:(lia)).
  pose proof (Z.mod_pos_bound (n + 19) 20 ltac:(lia)).
  lia.
Qed.

Lemma slice_page {A} (l : list A) (p : Z) :
  (1 <= p)%Z ->
  Array_slice l ((p - 1) * 20) ((p - 1) * 20 + 20) = take 20 (drop (Z.to_nat ((p - 1) * 20)) l).
Proof.
  intros Hp. unfold Array_slice, relative_index.
  set (len := Z.of_nat (length l)). set (s := ((p - 1) * 20)%Z).
  assert (Hs : (0 <= s)%Z) by (unfold s; lia).
  destruct (Z.ltb_spec s 0); [lia|]. destruct (Z.ltb_spec (s + 20) 0); [lia|].
  destruct (Z.le_gt_cases len s) as [Hge|Hlt].
  - rewrite (Z.min_r s len) by lia.
    rewrite !drop_ge by (unfold len in *; lia). rewrite !take_nil. reflexivity.
  - rewrite (Z.min_l s len) by lia.
    destruct (Z.le_gt_cases (s + 20) len) as [Hfull|Hpart].
    + rewrite Z.min_l by lia. f_equal. lia.
    + rewrite Z.min_r by lia.
      rewrite !take_ge; [reflexivity| |]; rewrite length_drop; unfold len in *; lia.
Qed.

(** ** Blank terms and the two paths of [highlightText] *)

Lemma dropwhile_nil {A} (p : A -> bool) l : dropwhile p l = [] <-> forallb p l = true.
Proof.
  induction l as [|x l IH]; cbn; [split; reflexivity|].
  destruct (p x); cbn; [exact IH|]. split; discriminate.
Qed.

Lemma trim_blank term : trim term = [] <-> is_blank term = true.
Proof.
  unfold is_blank. rewrite <- dropwhile_nil. fold (trimStart term). split.
  - intros H. pose proof (dropwhile_head is_space term) as Hh. fold (trimStart term) in Hh.
    destruct (trimEnd_prefix (trimStart term)) as [k Hk]. fold (trim term) in Hk.
    rewrite H in Hk. cbn in Hk. subst k.
    destruct (trimStart term) as [|x u] eqn:E; [reflexivity|]. exfalso.
    unfold trim, trimEnd in H. rewrite E in H.
    assert (Hd : dropwhile is_space (rev (x :: u)) = []).
    { destruct (dropwhile is_space (rev (x :: u))) eqn:D; [reflexivity|].
      apply (f_equal (@length ascii)) in H. rewrite length_rev in H. discriminate. }
    apply dropwhile_nil in Hd. rewrite forallb_forall in Hd.
    cbn in Hh. specialize (Hd x). rewrite Hd in Hh; [discriminate|].
    apply -> in_rev. left. reflexivity.
  - intros H. unfold trim. rewrite H. reflexivity.
Qed.

Lemma highlightText_blank text term :
  is_blank term = true -> highlightText text term = Normal text.
Proof.
  intros H. apply trim_blank in H. unfold highlightText.
  cbn [String_trim string_receiver mbind completion_bind]. rewrite H. reflexivity.
Qed.

Lemma highlightText_nonblank text term :
  is_blank term = false ->
  highlightText text term =
  marked ← String_replace text (mkRegExp (RGroup 1 (literal term)) 1 true true)
                          (str "<mark>$1</mark>");
  Normal (VStr marked).
Proof.
  intros H. unfold highlightText.
  cbn [String_trim string_receiver mbind completion_bind].
  destruct (trim term) as [|x u] eqn:E.
  - apply trim_blank in E. congruence.
  - cbn [ToBoolean length Nat.eqb negb].
    change (RegExp_new (str "[.*+?^${}()|[\]\\]") (str "g"))
      with (Normal (mkRegExp (RClass false
       [CAChar "."; CAChar "*"; CAChar "+"; CAChar "?"; CAChar "^"; CAChar "$"; CAChar "{";
        CAChar "}"; CAChar "("; CAChar ")"; CAChar "|"; CAChar "["; CAChar "]"; CAChar "\"])
       0 true false)).
    cbn [mbind completion_bind]. rewrite escape_scan. cbn [mbind completion_bind].
    unfold RegExp_new. rewrite parse_escaped. reflexivity.
Qed.

Lemma blank_not_nil term : is_blank term = false -> term <> [].
Proof. intros H ->. discriminate. Qed.

(** ** The effect on typed records *)

Lemma effect_view rawData rawResults selectedYear selectedPolicy sortOrder :
  Forall policy_typed (candidates rawData rawResults) ->
  exists v,
    filteredData_effect rawData rawResults selectedYear selectedPolicy sortOrder = Normal v
    /\ Permutation v (List.filter (passes selectedYear selectedPolicy)
                                  (candidates rawData rawResults)).
Proof.
  intros Ht. rewrite effect_typed by exact Ht. eexists. split; [reflexivity|].
  destruct rawResults; apply Array_sort_perm.
Qed.

Lemma view_In rawData rawResults selectedYear selectedPolicy sortOrder v r :
  Forall policy_typed (candidates rawData rawResults) ->
  filteredData_effect rawData rawResults selectedYear selectedPolicy sortOrder = Normal v ->
  In r v <->
  In r (candidates rawData rawResults)
  /\ (selectedYear = [] \/ field r "year" = VStr selectedYear)
  /\ (selectedPolicy = [] \/
      normalizeString (field r "policy_area") = normalizeString (VStr selectedPolicy)).
Proof.
  intros Ht Hv.
  destruct (effect_view rawData rawResults selectedYear selectedPolicy sortOrder Ht)
    as [v' [Hv' Hp]].
  rewrite Hv in Hv'. injection Hv' as <-.
  split.
  - intros Hin. apply (Permutation_in _ Hp), List.filter_In in Hin as [Hin Hpass].
    split; [exact Hin|]. apply passes_spec; [|exact Hpass].
    rewrite List.Forall_forall in Ht. apply Ht, Hin.
  - intros [Hin Hc]. apply (Permutation_in _ (Permutation_sym Hp)), List.filter_In.
    split; [exact Hin|]. apply passes_spec; [|exact Hc].
    rewrite List.Forall_forall in Ht. apply Ht, Hin.
Qed.


Lemma trim_truthy s : trim s <> [] -> negb (ToBoolean (VStr (trim s))) = false.
Proof. destruct (trim s); [congruence | reflexivity]. Qed.

(** * The claims *)

(** The filter through the normal form of the policy area. *)
Lemma passes_explicit selectedYear selectedPolicy it :
  passes selectedYear selectedPolicy it = true <->
  (selectedYear = [] \/ field it "year" = VStr selectedYear)
  /\ (selectedPolicy = [] \/
      policy_key (field it "policy_area")
      = trim (List.filter keeps (toLowerCase selectedPolicy))).
Proof.
  unfold passes, policy_key, normalize_amended.
  rewrite andb_true_iff, !orb_true_iff, !length_eqb_nil, strict_eq_string.
  destruct (field it "policy_area"); rewrite str_eqb_eq; reflexivity.
Qed.

(** C1.  For every candidate sequence (baseline or search results) whose
    records have a policy area that is a string or absent, every filter pair
    and every sort order, the effect returns a View, and a record is in the
    View if and only if it is a candidate, the year filter is empty or equal
    to the record's year (the same string), and the policy filter is empty
    or has the normal form of the record's policy area: lower case, without
    the code units the class strips and without outer whitespace.  The View
    has each such record as often as the candidates have it.  Emptying
    either filter gives a View that contains the stricter one. *)
Theorem filter_conjunction rawData rawResults selectedYear selectedPolicy sortOrder :
  Forall policy_typed (candidates rawData rawResults) ->
  exists v vy vp,
    filteredData_effect rawData rawResults selectedYear selectedPolicy sortOrder = Normal v
    /\ filteredData_effect rawData rawResults [] selectedPolicy sortOrder = Normal vy
    /\ filteredData_effect rawData rawResults selectedYear [] sortOrder = Normal vp
    /\ Permutation v (List.filter (passes selectedYear selectedPolicy)
                                  (candidates rawData rawResults))
    /\ (forall r,
          In r v <->
          In r (candidates rawData rawResults)
          /\ (selectedYear = [] \/ field r "year" = VStr selectedYear)
          /\ (selectedPolicy = [] \/
              policy_key (field r "policy_area")
              = trim (List.filter keeps (toLowerCase selectedPolicy))))
    /\ incl v vy
    /\ incl v vp.
Proof.
  intros Ht.
  destruct (effect_view rawData rawResults selectedYear selectedPolicy sortOrder Ht)
    as [v [Hv Pv]].
  destruct (effect_view rawData rawResults [] selectedPolicy sortOrder Ht) as [vy [Hvy Py]].
  destruct (effect_view rawData rawResults selectedYear [] sortOrder Ht) as [vp [Hvp Pp]].
  assert (Hin : forall sy sp w,
            Permutation w (List.filter (passes sy sp) (candidates rawData rawResults)) ->
            forall r, In r w <->
              In r (candidates rawData rawResults)
              /\ (sy = [] \/ field r "year" = VStr sy)
              /\ (sp = [] \/ policy_key (field r "policy_area")
                             = trim (List.filter keeps (toLowerCase sp)))).
  { intros sy sp w P r. rewrite <- passes_explicit, <- List.filter_In.
    split; apply Permutation_in; [exact P | symmetry; exact P]. }
  exists v, vy, vp.
  split; [exact Hv|]. split; [exact Hvy|]. split; [exact Hvp|]. split; [exact Pv|].
  split; [apply (Hin _ _ _ Pv)|]. split.
  - intros r Hr. apply (Hin _ _ _ Pv) in Hr as [Hc [_ Hp]]. apply (Hin _ _ _ Py). auto.
  - intros r Hr. apply (Hin _ _ _ Pv) in Hr as [Hc [Hy _]]. apply (Hin _ _ _ Pp). auto.
Qed.

(** Four candidates, one for each outcome of the two filters: the three
    Views, and the record that only the year filter refuses. *)
Lemma filter_conjunction_witness :
  Forall policy_typed four_cases
  /\ filteredData_effect four_cases None (str "2024") (str "antitrust") (str "newest")
     = Normal [record "2024" "Antitrust " 0]
  /\ filteredData_effect four_cases None [] (str "antitrust") (str "newest")
     = Normal [record "2024" "Antitrust " 0; record "2020" "ANTI-TRUST" 0]
  /\ filteredData_effect four_cases None (str "2024") [] (str "newest")
     = Normal [record "2024" "Antitrust " 0; record "2024" "Merger" 0]
  /\ (In (record "2020" "ANTI-TRUST" 0) four_cases
      /\ policy_key (field (record "2020" "ANTI-TRUST" 0) "policy_area") = str "antitrust"
      /\ field (record "2020" "ANTI-TRUST" 0) "year" <> VStr (str "2024")).
Proof.
  assert (H : Forall policy_typed four_cases) by (repeat constructor).
  destruct (filter_conjunction four_cases None (str "2024") (str "antitrust") (str "newest") H)
    as [v [vy [vp [Hv [Hvy [Hvp [_ [Hin _]]]]]]]].
  split; [exact H|].
  assert (Ev : v = [record "2024" "Antitrust " 0]).
  { assert (E : Normal v = Normal [record "2024" "Antitrust " 0])
      by (rewrite <- Hv; vm_compute; reflexivity).
    injection E as E. exact E. }
  split; [rewrite Hv, Ev; reflexivity|].
  split; [vm_compute; reflexivity|]. split; [vm_compute; reflexivity|].
  split; [right; right; left; reflexivity|]. split; [vm_compute; reflexivity|].
  intros E. discriminate E.
Defined.

(** ** A comparator that returns [NaN]

    The order of the records under such a comparator is the
    implementation's.  Whatever it is, a sort that reads its elements through
    the comparator alone treats alike two inputs it cannot tell apart. *)

Lemma exact_year_parses it : exact_year it -> year_of it <> NaN.
Proof. intros [z [_ [E _]]]. rewrite E. discriminate. Qed.

Section Natural.
Context {A B : Type} (f : A -> B) (c : A -> A -> number) (c' : B -> B -> number).

Lemma sort_insert_natural x l :
  (forall y, In y l -> SortCompare c' (f x) (f y) = SortCompare c x y) ->
  sort_insert c' (f x) (map f l) = map f (sort_insert c x l).
Proof.
  induction l as [|y l IH]; intros H; [reflexivity|]. cbn [map sort_insert].
  rewrite (H y (or_introl eq_refl)).
  destruct (SortCompare c x y); try reflexivity.
  cbn [map]. f_equal. apply IH. intros z Hz. apply H. right. exact Hz.
Qed.

Lemma Array_sort_natural l :
  (forall x y, In x l -> In y l -> SortCompare c' (f x) (f y) = SortCompare c x y) ->
  Array_sort c' (map f l) = map f (Array_sort c l).
Proof.
  induction l as [|x l IH]; intros H; [reflexivity|]. cbn [map Array_sort].
  rewrite IH by (intros y z Hy Hz; apply H; right; assumption).
  apply sort_insert_natural. intros y Hy. apply H; [left; reflexivity|].
  right. apply (Array_sort_In c), Hy.
Qed.
End Natural.

Section AnySort.
Variable sort : forall A : Type, (A -> A -> number) -> list A -> list A.
Hypothesis sort_perm : forall A (c : A -> A -> number) l, Permutation (sort A c l) l.
Hypothesis sort_natural :
  forall A B (f : A -> B) (c : A -> A -> number) (c' : B -> B -> number) l,
    (forall x y, In x l -> In y l -> SortCompare c' (f x) (f y) = SortCompare c x y) ->
    sort B c' (map f l) = map f (sort A c l).

(** A record whose year does not parse and one of 2024, in the two orders:
    for one of the two inputs the sort returns the unparsed year first. *)
Lemma unparsed_year_first_for_any_sort :
  sort item (by_year (str "newest")) [no_year; year_2024] = [no_year; year_2024]
  \/ sort item (by_year (str "newest")) [year_2024; no_year] = [no_year; year_2024].
Proof.
  pose (c0 := fun _ _ : bool => NaN).
  assert (H1 : sort item (by_year (str "newest")) [no_year; year_2024]
               = map (fun b : bool => if b then no_year else year_2024)
                     (sort bool c0 [true; false])).
  { apply (sort_natural bool item (fun b : bool => if b then no_year else year_2024) c0
             (by_year (str "newest")) [true; false]).
    intros [] [] _ _; vm_compute; reflexivity. }
  assert (H2 : sort item (by_year (str "newest")) [year_2024; no_year]
               = map (fun b : bool => if b then year_2024 else no_year)
                     (sort bool c0 [true; false])).
  { apply (sort_natural bool item (fun b : bool => if b then year_2024 else no_year) c0
             (by_year (str "newest")) [true; false]).
    intros [] [] _ _; vm_compute; reflexivity. }
  pose proof (sort_perm bool c0 [true; false]) as P.
  symmetry in P. apply Permutation_length_2_inv in P as [E|E]; rewrite E in H1, H2.
  - left. exact H1.
  - right. exact H2.
Qed.

(** So the order of the claim fails on one of them. *)
Lemma claimed_order_fails_for_any_sort :
  exists input,
    Permutation input [no_year; year_2024]
    /\ ~ Sorted newest_first_as_claimed (sort item (by_year (str "newest")) input).
Proof.
  assert (N : ~ Sorted newest_first_as_claimed [no_year; year_2024]).
  { intros H. inversion H as [|? ? _ Hhd]; subst. inversion Hhd as [|? ? Hc]; subst.
    vm_compute in Hc. discriminate. }
  destruct unparsed_year_first_for_any_sort as [E|E].
  - exists [no_year; year_2024]. split; [reflexivity|]. rewrite E. exact N.
  - exists [year_2024; no_year]. split; [apply perm_swap|]. rewrite E. exact N.
Qed.
End AnySort.

(** The model's sort is one of these sorts. *)
Lemma Array_sort_is_comparison_sort :
  (forall A (c : A -> A -> number) l, Permutation (Array_sort c l) l)
  /\ (forall A B (f : A -> B) (c : A -> A -> number) (c' : B -> B -> number) l,
        (forall x y, In x l -> In y l -> SortCompare c' (f x) (f y) = SortCompare c x y) ->
        Array_sort c' (map f l) = map f (Array_sort c l)).
Proof.
  split; [intros; apply Array_sort_perm | intros; apply Array_sort_natural; assumption].
Qed.



Lemma exact_year_record y p s z :
  (Z.abs z <= 2 ^ 53)%Z -> parseInt_string (str y) = Fin (inject_Z z) ->
  exact_year (record y p s).
Proof. intros Hz E. exists z. split; [exact Hz|]. split; [exact E | exact I]. Qed.




(** The scenario of the spec: scores 0.91, 0.77, 0.77 keep their order. *)
Example search_scenario :
  filteredData_effect [] (Some [record "2021" "Merger" (91 # 100);
                                record "2022" "Merger" (77 # 100);
                                record "2023" "Merger" (77 # 100)])
                      [] [] (str "newest")
  = Normal [record "2021" "Merger" (91 # 100);
            record "2022" "Merger" (77 # 100);
            record "2023" "Merger" (77 # 100)].
Proof. vm_compute. reflexivity. Qed.

(** C4.  When the search of a non-empty query fails (a rejected [fetch], a
    body that is not JSON, or an exception while reading the matches), the
    failure is logged and nothing else changes but the loading flag and the
    search term: the result set, hence the mode, and the View are the ones
    before the submit.  The same holds when other events ran between the
    submit and the failure. *)
Theorem failed_search_noop (st : state) (r : response) (e : failure) :
  trim (inputTerm st) <> [] ->
  enriched_of r = inl e ->
  handleSubmit st r =
    mkState (rawData st) (rawResults st) false (inputTerm st) (trim (inputTerm st))
            (selectedYear st) (selectedPolicy st) (sortOrder st) (currentPage st)
            (e :: console st)
  /\ rawResults (handleSubmit st r) = rawResults st
  /\ view (handleSubmit st r) = view st
  /\ (forall mid, rawResults (handleSubmit_settle r mid) = rawResults mid
                  /\ view (handleSubmit_settle r mid) = view mid).
Proof.
  intros Hq He.
  assert (H : handleSubmit st r =
    mkState (rawData st) (rawResults st) false (inputTerm st) (trim (inputTerm st))
            (selectedYear st) (selectedPolicy st) (sortOrder st) (currentPage st)
            (e :: console st)).
  { unfold handleSubmit, handleSubmit_begin. rewrite (trim_truthy _ Hq).
    unfold handleSubmit_settle. rewrite He. reflexivity. }
  split; [exact H|]. rewrite H. split; [reflexivity|]. split; [reflexivity|].
  intros mid. unfold handleSubmit_settle. rewrite He. split; reflexivity.
Qed.

Lemma failed_search_noop_witness :
  trim (inputTerm browsing) <> []
  /\ rawResults (handleSubmit browsing (Rejected FetchRejected)) = rawResults browsing
  /\ console (handleSubmit browsing (Rejected FetchRejected)) = [FetchRejected].
Proof.
  assert (Hq : trim (inputTerm browsing) <> []) by discriminate.
  destruct (failed_search_noop browsing (Rejected FetchRejected) FetchRejected Hq eq_refl)
    as [H [Hr _]].
  split; [exact Hq|]. split; [exact Hr|]. rewrite H. reflexivity.
Defined.

(** C5.  For every text and every term, [highlightText] returns a string: the
    text itself when the term is empty or all whitespace, and otherwise the
    text with every case-insensitive occurrence of the literal term wrapped.
    The first [replace] puts a backslash before every metacharacter of the
    term, and the pattern built from the escaped term always compiles, to
    the group of the term's code units read literally. *)
Theorem highlightText_total_literal (text term : list ascii) :
  highlightText (VStr text) term =
    Normal (VStr (if is_blank term then text else mark_occurrences term text 0))
  /\ (exists meta,
        RegExp_new (str "[.*+?^${}()|[\]\\]") (str "g") = Normal meta
        /\ String_replace (VStr term) meta (str "\$&") = Normal (escapeRegExp term))
  /\ RegExp_new (str "(" ++ escapeRegExp term ++ str ")") (str "gi") =
       Normal (mkRegExp (RGroup 1 (literal term)) 1 true true).
Proof.
  split; [|split].
  - destruct (is_blank term) eqn:H.
    + apply highlightText_blank, H.
    + rewrite highlightText_nonblank by exact H.
      unfold String_replace. cbn [string_receiver mbind completion_bind].
      rewrite highlight_scan by (apply blank_not_nil, H). reflexivity.
  - eexists. split; [reflexivity|]. apply escape_scan.
  - unfold RegExp_new. rewrite parse_escaped. reflexivity.
Qed.

Example highlight_metacharacters :
  highlightText (VStr (str "The m&a (eu) case.")) (str "M&A (EU)")
  = Normal (VStr (str "The <mark>m&a (eu)</mark> case.")).
Proof. reflexivity. Qed.

Example unescaped_pattern_throws :
  RegExp_new (str "(" ++ str "M&A (EU" ++ str ")") (str "gi") = Throw SyntaxError.
Proof. reflexivity. Qed.

(** C6, as stated, fails: the class [\w] holds the underscore, which is
    neither a letter, a digit, whitespace nor [&], and it is kept. *)
Lemma normalize_keeps_underscore :
  normalizeString (VStr (str "a_b")) = Normal (str "a_b")
  /\ normalize_as_claimed (str "a_b") = str "ab"
  /\ normalizeString (VStr (str "a_b")) <> Normal (normalize_as_claimed (str "a_b")).
Proof. split; [reflexivity|]. split; [reflexivity|]. discriminate. Qed.

(** C6, amended.  [normalizeString] lower-cases a string, strips every code
    unit that is not an ASCII letter, a digit, an underscore, whitespace or
    [&], and trims leading and trailing whitespace, so that the result holds
    kept, lower-case code units only and neither starts nor ends with
    whitespace; for [undefined] and for the empty string it returns the
    empty string. *)
Theorem normalizeString_amended (s : list ascii) :
  (exists t,
     normalizeString (VStr s) = Normal t
     /\ t = trim (List.filter keeps (toLowerCase s))
     /\ Forall (fun c => keeps c = true /\ lower_char c = c) t
     /\ head_stays is_space t
     /\ head_stays is_space (rev t))
  /\ normalizeString VUndefined = Normal []
  /\ normalizeString (VStr []) = Normal [].
Proof.
  split; [|split; reflexivity].
  exists (normalize_amended s). split; [apply normalizeString_string|].
  split; [reflexivity|]. split; [apply normalize_amended_chars|].
  split; [apply trim_head | apply trim_last].
Qed.

(** C7.  For a View of length n, [totalPages] is the ceiling of n/20 (0 for
    the empty View); for a page index p >= 1 the page is the 20 records from
    index 20(p-1), fewer at the end of the View; and the last page, of index
    [totalPages], has n mod 20 records, or 20 when n is a non-zero multiple
    of 20. *)
Theorem pagination_bounds (v : list item) :
  let n := Z.of_nat (length v) in
  (20 * (totalPages v - 1) < n <= 20 * totalPages v)%Z
  /\ totalPages v = ((n + 19) / 20)%Z
  /\ (v = [] -> totalPages v = 0%Z)
  /\ (forall p, (1 <= p)%Z ->
        currentPageData v p = take 20 (drop (Z.to_nat (20 * (p - 1))) v))
  /\ Z.of_nat (length (currentPageData v (totalPages v)))
     = (if (n mod 20 =? 0)%Z then (if (n =? 0)%Z then 0 else 20) else n mod 20)%Z.
Proof.
  intros n. pose proof (totalPages_div v) as Ht. fold n in Ht.
  pose proof (Z.div_mod (n + 19) 20 ltac:(lia)) as Hd.
  pose proof (Z.mod_pos_bound (n + 19) 20 ltac:(lia)) as Hb.
  pose proof (Z.div_mod n 20 ltac:(lia)) as Hd'.
  pose proof (Z.mod_pos_bound n 20 ltac:(lia)) as Hb'.
  assert (Hn : (0 <= n)%Z) by (unfold n; lia).
  split; [rewrite Ht; lia|]. split; [exact Ht|]. split.
  { intros ->. reflexivity. }
  split.
  { intros p Hp. unfold currentPageData, ITEMS_PER_PAGE. rewrite slice_page by exact Hp.
    do 3 f_equal. lia. }
  destruct (Z.eqb_spec n 0) as [H0|H0].
  - assert (v = []) as -> by (destruct v; [reflexivity | cbn in n; lia]). reflexivity.
  - assert (H1 : (1 <= totalPages v)%Z) by (rewrite Ht; lia).
    unfold currentPageData, ITEMS_PER_PAGE. rewrite slice_page by exact H1.
    rewrite length_take, length_drop. fold n in Ht |- *.
    destruct (Z.eqb_spec (n mod 20) 0); unfold n in *; lia.
Qed.

(** The scenario of the spec: 25 records make 2 pages, the second of 5. *)
Lemma pagination_bounds_witness :
  (1 <= 2)%Z
  /\ totalPages (repeat (record "2024" "Merger" 0) 25) = 2%Z
  /\ length (currentPageData (repeat (record "2024" "Merger" 0) 25) 2) = 5%nat.
Proof.
  destruct (pagination_bounds (repeat (record "2024" "Merger" 0) 25))
    as [_ [Ht [_ [Hp _]]]].
  assert (H12 : (1 <= 2)%Z) by lia.
  split; [exact H12|]. split.
  - rewrite Ht. reflexivity.
  - rewrite (Hp 2%Z H12). reflexivity.
Defined.

(** C8.  The code at the failing input: for a record without a text and a
    non-blank search term, [highlightText] calls [replace] on [undefined]
    and throws a TypeError, where the claim has the highlighting skipped.
    [normalizeString] guards its argument (line 32) and the render guards an
    absent score (line 450); [highlightText] guards the search term only. *)
Lemma highlight_absent_text_throws :
  ToBoolean (field (∅ : item) "text") = false
  /\ highlightText (field (∅ : item) "text") (str "merger") = Throw TypeError.
Proof. split; reflexivity. Qed.

(** [highlightText] on a falsy text, for every term: the text is passed
    through as it is when the search term is blank; with a non-blank term the
    empty string comes back empty and any other falsy text throws. *)
Theorem highlight_falsy_text (it : item) (term : list ascii) :
  ToBoolean (field it "text") = false ->
  highlightText (field it "text") term =
    if is_blank term then Normal (field it "text")
    else match field it "text" with
         | VStr _ => Normal (VStr [])
         | _ => Throw TypeError
         end.
Proof.
  intros Hf. destruct (is_blank term) eqn:H.
  - apply highlightText_blank, H.
  - rewrite highlightText_nonblank by exact H.
    destruct (field it "text") as [| |b|n|s]; try reflexivity.
    destruct s; [|discriminate].
    unfold String_replace. cbn [string_receiver mbind completion_bind].
    rewrite highlight_scan by (apply blank_not_nil, H). reflexivity.
Qed.

Lemma highlight_falsy_text_witness :
  ToBoolean (field (∅ : item) "text") = false
  /\ highlightText (field (∅ : item) "text") (str "merger") = Throw TypeError.
Proof.
  split; [reflexivity|]. exact (highlight_falsy_text ∅ (str "merger") eq_refl).
Defined.

(** C9.  A submit with a non-empty query stores the trimmed query as the
    search term before the request is issued, so whatever the search does
    the search term is the new query; after a failed search the result set
    is the old one and the records are highlighted with the new term. *)
Theorem search_term_set_before_search (st : state) :
  trim (inputTerm st) <> [] ->
  searchTerm (fst (handleSubmit_begin st)) = trim (inputTerm st)
  /\ snd (handleSubmit_begin st) = Some (mkRequest (trim (inputTerm st)) ITEMS_PER_PAGE)
  /\ (forall r, searchTerm (handleSubmit st r) = trim (inputTerm st))
  /\ (forall r e it,
        enriched_of r = inl e ->
        rawResults (handleSubmit st r) = rawResults st
        /\ renderText (handleSubmit st r) it
           = highlightText (field it "text") (trim (inputTerm st))).
Proof.
  intros Hq. unfold handleSubmit, handleSubmit_begin. rewrite (trim_truthy _ Hq).
  cbn [fst snd]. split; [reflexivity|]. split; [reflexivity|]. split.
  - intros r. unfold handleSubmit_settle. destruct (enriched_of r); reflexivity.
  - intros r e it He. unfold handleSubmit_settle, renderText. rewrite He. split; reflexivity.
Qed.

Lemma search_term_set_before_search_witness :
  trim (inputTerm browsing) <> []
  /\ searchTerm browsing = []
  /\ searchTerm (handleSubmit browsing (Rejected FetchRejected)) = str "cartel"
  /\ rawResults (handleSubmit browsing (Rejected FetchRejected)) = None.
Proof.
  assert (Hq : trim (inputTerm browsing) <> []) by discriminate.
  destruct (search_term_set_before_search browsing Hq) as [_ [_ [Hs Hf]]].
  split; [exact Hq|]. split; [reflexivity|]. split; [exact (Hs _)|].
  exact (proj1 (Hf (Rejected FetchRejected) FetchRejected ∅ eq_refl)).
Defined.

(** C10.  [normalizeString] is idempotent on strings, so a comparison of
    normalized labels does not depend on whether one side was normalized
    before. *)
Theorem normalizeString_idempotent (a b : list ascii) :
  exists t,
    normalizeString (VStr a) = Normal t
    /\ normalizeString (VStr t) = Normal t
    /\ (normalizeString (VStr t) = normalizeString (VStr b)
        <-> normalizeString (VStr a) = normalizeString (VStr b)).
Proof.
  exists (normalize_amended a).
  rewrite !normalizeString_string, normalize_amended_idem. repeat split; auto.
Qed.

(** * Further properties of the code *)

(** ** The effect and the shape of the records *)

Lemma keep_item_no_policy selectedYear it :
  keep_item selectedYear [] it = Normal (passes selectedYear [] it).
Proof.
  unfold keep_item, passes. cbn. rewrite !andb_true_r, negb_involutive. reflexivity.
Qed.

Lemma effect_no_policy rawData rawResults selectedYear sortOrder :
  filteredData_effect rawData rawResults selectedYear [] sortOrder =
  Normal (match rawResults with
          | Some r => Array_sort by_score (List.filter (passes selectedYear []) r)
          | None => Array_sort (by_year sortOrder) (List.filter (passes selectedYear []) rawData)
          end).
Proof.
  unfold filteredData_effect.
  rewrite (Array_filter_total _ (passes selectedYear [])).
  - destruct rawResults; reflexivity.
  - rewrite List.Forall_forall. intros it _. apply keep_item_no_policy.
Qed.

Lemma passes_year_only selectedYear it :
  passes selectedYear [] it = true <->
  (selectedYear = [] \/ field it "year" = VStr selectedYear).
Proof.
  unfold passes. cbn [length Nat.eqb orb]. rewrite andb_true_r, orb_true_iff.
  rewrite length_eqb_nil, strict_eq_string. reflexivity.
Qed.

(** X1.  Without a policy filter the effect never throws, whatever
    primitive values (string, number, boolean, null, absent) the fields of
    the records hold: it returns a permutation of the candidates that pass
    the year filter, and a record is in the View exactly when it is a
    candidate and the year filter is empty or equal to its year. *)
Theorem effect_total_without_policy_filter rawData rawResults selectedYear sortOrder :
  exists v,
    filteredData_effect rawData rawResults selectedYear [] sortOrder = Normal v
    /\ Permutation v (List.filter (passes selectedYear []) (candidates rawData rawResults))
    /\ (forall r, In r v <->
          In r (candidates rawData rawResults)
          /\ (selectedYear = [] \/ field r "year" = VStr selectedYear)).
Proof.
  rewrite effect_no_policy. eexists. split; [reflexivity|].
  assert (P : Permutation
    match rawResults with
    | Some r => Array_sort by_score (List.filter (passes selectedYear []) r)
    | None => Array_sort (by_year sortOrder) (List.filter (passes selectedYear []) rawData)
    end (List.filter (passes selectedYear []) (candidates rawData rawResults)))
    by (destruct rawResults; apply Array_sort_perm).
  split; [exact P|]. intros r. split.
  - intros Hin. apply (Permutation_in _ P), List.filter_In in Hin as [Hin Hp].
    split; [exact Hin|]. apply passes_year_only, Hp.
  - intros [Hin Hy]. apply (Permutation_in _ (Permutation_sym P)), List.filter_In.
    split; [exact Hin|]. apply passes_year_only, Hy.
Qed.

Lemma normalizeString_untyped v :
  string_or_falsy v = false -> normalizeString v = Throw TypeError.
Proof.
  destruct v as [| |b|n|s]; cbn [string_or_falsy ToBoolean]; try discriminate.
  - destruct b; [reflexivity | discriminate].
  - intros H. apply negb_false_iff in H. unfold normalizeString. cbn [ToBoolean].
    rewrite H. reflexivity.
Qed.

Lemma keep_item_outcome selectedYear selectedPolicy it :
  selectedPolicy <> [] ->
  if string_or_falsy (field it "policy_area")
  then exists b, keep_item selectedYear selectedPolicy it = Normal b
  else keep_item selectedYear selectedPolicy it = Throw TypeError.
Proof.
  intros Hp. destruct (string_or_falsy (field it "policy_area")) eqn:E.
  - eexists. apply keep_item_typed, E.
  - unfold keep_item. cbn [ToBoolean]. destruct selectedPolicy; [contradiction|].
    cbn [length Nat.eqb negb]. rewrite (normalizeString_untyped _ E). reflexivity.
Qed.

Lemma Array_filter_throws {A} (p : A -> completion bool) (ok : A -> bool) e l :
  (forall x, if ok x then exists b, p x = Normal b else p x = Throw e) ->
  existsb (fun x => negb (ok x)) l = true ->
  Array_filter p l = Throw e.
Proof.
  intros Hp. induction l as [|x l IH]; cbn; [discriminate|].
  specialize (Hp x). destruct (ok x); cbn.
  - intros Hl. destruct Hp as [b ->]. cbn. rewrite (IH Hl). reflexivity.
  - intros _. rewrite Hp. reflexivity.
Qed.

(** X2.  With a policy filter set, one candidate whose policy area is
    neither a string nor falsy (a number, [true]) makes the whole effect
    throw a TypeError: no View is computed. *)
Theorem effect_throws_on_untyped_policy rawData rawResults selectedYear selectedPolicy sortOrder :
  selectedPolicy <> [] ->
  Exists (fun r => string_or_falsy (field r "policy_area") = false)
         (candidates rawData rawResults) ->
  filteredData_effect rawData rawResults selectedYear selectedPolicy sortOrder = Throw TypeError.
Proof.
  intros Hp Hex. unfold filteredData_effect. fold (candidates rawData rawResults).
  rewrite (Array_filter_throws _ (fun r => string_or_falsy (field r "policy_area")) TypeError).
  - reflexivity.
  - intros x. apply keep_item_outcome, Hp.
  - apply existsb_exists. apply List.Exists_exists in Hex as [r [Hin Hr]].
    exists r. split; [exact Hin|]. rewrite Hr. reflexivity.
Qed.

Lemma effect_throws_on_untyped_policy_witness :
  str "Merger" <> []
  /\ filteredData_effect [record "2024" "Merger" 0; {[ "policy_area" := VNum (Fin 5) ]}]
                         None [] (str "Merger") (str "newest") = Throw TypeError.
Proof.
  assert (H : str "Merger" <> []) by discriminate.
  split; [exact H|].
  apply (effect_throws_on_untyped_policy _ None [] (str "Merger") (str "newest") H).
  apply Exists_cons_tl, Exists_cons_hd. reflexivity.
Defined.



(** ** What [normalizeString] ignores, what [highlightText] keeps *)

Lemma lower_upper c : lower_char (upper_char c) = lower_char c.
Proof. each_ascii c; reflexivity. Qed.









Lemma mark_occurrences_sublist term :
  term <> [] ->
  forall text skip, drop skip text `sublist_of` mark_occurrences term text skip.
Proof.
  intros Hne text. induction text as [|c text IH]; intros skip.
  - rewrite drop_nil. constructor.
  - destruct skip as [|k]; [|apply IH]. cbn [drop mark_occurrences].
    destruct (ci_prefix term (c :: text)) as [rest|].
    + apply sublist_inserts_l.
      rewrite <- (take_drop (length term) (c :: text)) at 1.
      apply sublist_app; [reflexivity|]. apply sublist_inserts_l.
      destruct (length term) as [|n] eqn:E; [destruct term; [contradiction|discriminate]|].
      cbn [drop Nat.sub]. rewrite Nat.sub_0_r. apply IH.
    + apply sublist_skip. apply (IH 0%nat).
Qed.

Lemma mark_occurrences_none term : forall text,
  (forall k, ci_prefix term (drop k text) = None) ->
  mark_occurrences term text 0 = text.
Proof.
  induction text as [|c text IH]; intros H; [reflexivity|].
  pose proof (H 0%nat) as H0. cbn [drop] in H0.
  cbn [mark_occurrences]. rewrite H0. f_equal. apply IH.
  intros k. apply (H (S k)).
Qed.

(** X5.  [highlightText] only inserts markers: the text is a subsequence of
    the result, in its own case and with its own markup, and when the term
    occurs nowhere in the text the result is the text. *)
Theorem highlight_keeps_text (text term : list ascii) :
  exists out,
    highlightText (VStr text) term = Normal (VStr out)
    /\ text `sublist_of` out
    /\ ((forall k, ci_prefix term (drop k text) = None) -> out = text).
Proof.
  destruct (is_blank term) eqn:H.
  - exists text. split; [apply highlightText_blank, H|]. split; [reflexivity | auto].
  - exists (mark_occurrences term text 0). split.
    + rewrite highlightText_nonblank by exact H.
      unfold String_replace. cbn [string_receiver mbind completion_bind].
      rewrite highlight_scan by (apply blank_not_nil, H). reflexivity.
    + split; [apply (mark_occurrences_sublist term (blank_not_nil _ H) text 0)|].
      apply mark_occurrences_none.
Qed.

(** ** Pages *)

Lemma totalPages_pos (v : list item) : v <> [] -> (1 <= totalPages v)%Z.
Proof.
  intros Hv. rewrite totalPages_div.
  assert (1 <= Z.of_nat (length v))%Z by (destruct v; [contradiction | cbn; lia]).
  pose proof (Z.div_mod (Z.of_nat (length v) + 19) 20 ltac:(lia)).
  pose proof (Z.mod_pos_bound (Z.of_nat (length v) + 19) 20 ltac:(lia)). lia.
Qed.

Lemma parseInt_string_integer value v :
  parseInt_string value = Fin v -> v = inject_Z (Qfloor v).
Proof.
  unfold parseInt_string. destruct (strip_sign (trimStart value)) as [neg u].
  destruct (takewhile is_digit u); [discriminate|]. intros [= <-].
  destruct neg; unfold signed, inject_Z, Qopp, Qfloor; cbn [Qnum Qden];
    rewrite Z.div_1_r; reflexivity.
Qed.

(** X13.  On a non-empty View the three page controls keep the page index
    between 1 and [totalPages]: Prev and Next move by one and stop at the
    ends, and the page form sets a page in range or nothing. *)
Theorem page_controls_keep_range (v : list item) (st : state) (value : list ascii) :
  v <> [] ->
  (1 <= currentPage st <= totalPages v)%Z ->
  (1 <= currentPage (prevPage st) <= totalPages v)%Z
  /\ (1 <= currentPage (nextPage v st) <= totalPages v)%Z
  /\ (1 <= currentPage (goToPage v value st) <= totalPages v)%Z
  /\ (currentPage st = 1%Z -> currentPage (prevPage st) = 1%Z)
  /\ (currentPage st = totalPages v -> currentPage (nextPage v st) = totalPages v)
  /\ (1 < currentPage st -> currentPage (prevPage st) = currentPage st - 1)%Z
  /\ (currentPage st < totalPages v -> currentPage (nextPage v st) = currentPage st + 1)%Z.
Proof.
  intros Hv Hr. pose proof (totalPages_pos v Hv) as Ht.
  unfold prevPage, nextPage, goToPage. cbn [currentPage setCurrentPage].
  repeat split; try lia.
  - destruct (parseInt_string value) as [| |q] eqn:E; try lia.
    destruct (Qle_bool 1 q && Qle_bool q (inject_Z (totalPages v))) eqn:B; [|lia].
    apply andb_true_iff in B as [B1 B2]. apply Qle_bool_iff in B1, B2.
    apply parseInt_string_integer in E. rewrite E in B1. cbn. 
    change 1%Q with (inject_Z 1) in B1. rewrite <- Zle_Qle in B1. lia.
  - destruct (parseInt_string value) as [| |q] eqn:E; try lia.
    destruct (Qle_bool 1 q && Qle_bool q (inject_Z (totalPages v))) eqn:B; [|lia].
    apply andb_true_iff in B as [B1 B2]. apply Qle_bool_iff in B1, B2.
    apply parseInt_string_integer in E. rewrite E in B2. cbn.
    rewrite <- Zle_Qle in B2. lia.
Qed.

Lemma page_controls_keep_range_witness :
  twentyfive <> []
  /\ (1 <= currentPage browsing <= totalPages twentyfive)%Z
  /\ (1 <= currentPage (nextPage twentyfive browsing) <= totalPages twentyfive)%Z
  /\ currentPage (prevPage browsing) = 1%Z.
Proof.
  assert (Hv : twentyfive <> []) by discriminate.
  assert (Hr : (1 <= currentPage browsing <= totalPages twentyfive)%Z)
    by (change (totalPages twentyfive) with 2%Z; cbn; lia).
  destruct (page_controls_keep_range twentyfive browsing (str "2") Hv Hr)
    as [_ [Hn [_ [Hp _]]]].
  split; [exact Hv|]. split; [exact Hr|]. split; [exact Hn|]. apply Hp. reflexivity.
Defined.

Lemma chunks_take {A} (k : nat) (l : list A) (n : nat) :
  flat_map (fun i => take k (drop (k * i) l)) (seq 0 n) = take (k * n) l.
Proof.
  induction n as [|n IH].
  - rewrite Nat.mul_0_r. reflexivity.
  - rewrite seq_S, flat_map_app, IH. cbn [flat_map Nat.add]. rewrite app_nil_r.
    rewrite take_take_drop. f_equal. lia.
Qed.

Lemma page_take_drop (v : list item) (i : nat) :
  currentPageData v (Z.of_nat (S i)) = take 20 (drop (20 * i) v).
Proof.
  unfold currentPageData, ITEMS_PER_PAGE. rewrite slice_page by lia. do 2 f_equal. lia.
Qed.

(** X14.  The pages 1 to [totalPages], in order, make up the View: no record
    is lost or shown twice.  Every page in that range has between 1 and 20
    records; a page past the last, and page 0, are empty. *)
Theorem pages_partition_view (v : list item) :
  flat_map (fun i => currentPageData v (Z.of_nat (S i))) (seq 0 (Z.to_nat (totalPages v))) = v
  /\ (forall p, (1 <= p <= totalPages v)%Z ->
        (1 <= length (currentPageData v p) <= 20)%nat)
  /\ (forall p, (totalPages v < p)%Z -> currentPageData v p = [])
  /\ currentPageData v 0 = [].
Proof.
  pose proof (totalPages_div v) as Ht.
  pose proof (Z.div_mod (Z.of_nat (length v) + 19) 20 ltac:(lia)) as Hd.
  pose proof (Z.mod_pos_bound (Z.of_nat (length v) + 19) 20 ltac:(lia)) as Hb.
  split; [|split; [|split]].
  - erewrite flat_map_ext by (intros i; apply page_take_drop).
    rewrite (chunks_take 20 v). apply take_ge. lia.
  - intros p Hp. replace p with (Z.of_nat (S (Z.to_nat (p - 1)))) by lia.
    rewrite page_take_drop, length_take, length_drop. lia.
  - intros p Hp. replace p with (Z.of_nat (S (Z.to_nat (p - 1)))) by lia.
    rewrite page_take_drop, drop_ge by lia. apply take_nil.
  - unfold currentPageData, Array_slice, relative_index, ITEMS_PER_PAGE.
    change ((0 - 1) * 20)%Z with (-20)%Z. change (-20 + 20)%Z with 0%Z.
    change (-20 <? 0)%Z with true. change (0 <? 0)%Z with false. cbv iota.
    replace (Z.to_nat _) with 0%nat by lia. apply take_0.
Qed.

Lemma digits_value_snoc l d acc :
  digits_value (l ++ [d]) acc = (digits_value l acc * 10 + (code d - 48))%N.
Proof. revert acc. induction l as [|x l IH]; intros acc; cbn; [reflexivity | apply IH]. Qed.

Lemma digit_char (m : N) :
  (m < 10)%N ->
  (code (ascii_of_N (48 + m)) - 48)%N = m /\ is_digit (ascii_of_N (48 + m)) = true.
Proof.
  intros H. assert (E : code (ascii_of_N (48 + m)) = (48 + m)%N).
  { unfold code. apply N_ascii_embedding. lia. }
  unfold is_digit, in_range. rewrite E. split; [lia|].
  apply andb_true_iff. split; apply N.leb_le; lia.
Qed.

Lemma digits_rev_spec fuel : forall n,
  (n < 2 ^ N.of_nat (S fuel))%N ->
  digits_value (rev (digits_rev (S fuel) n)) 0 = n
  /\ Forall (fun c => is_digit c = true) (digits_rev (S fuel) n)
  /\ digits_rev (S fuel) n <> [].
Proof.
  induction fuel as [|fuel IH]; intros n Hn.
  - assert (Hlt : (n < 10)%N) by (change (2 ^ N.of_nat 1)%N with 2%N in Hn; lia).
    cbn [digits_rev]. apply N.ltb_lt in Hlt as Hb. rewrite Hb.
    rewrite N.mod_small by exact Hlt. destruct (digit_char n Hlt) as [Hc Hd].
    cbn [rev app digits_value]. split; [lia|]. split; [repeat constructor; exact Hd | discriminate].
  - change (digits_rev (S (S fuel)) n)
      with (ascii_of_N (48 + n mod 10)
              :: (if (n <? 10)%N then [] else digits_rev (S fuel) (n / 10))).
    assert (Hm : (n mod 10 < 10)%N) by (apply N.mod_lt; lia).
    destruct (digit_char _ Hm) as [Hc Hd].
    destruct (N.ltb_spec n 10) as [Hlt|Hge].
    + rewrite N.mod_small in * by exact Hlt.
      cbn [rev app digits_value]. split; [lia|]. split; [repeat constructor; exact Hd | discriminate].
    + assert (Hq : (n / 10 < 2 ^ N.of_nat (S fuel))%N).
      { apply N.Div0.div_lt_upper_bound.
        replace (N.of_nat (S (S fuel))) with (N.succ (N.of_nat (S fuel))) in Hn by lia.
        rewrite N.pow_succ_r' in Hn. lia. }
      destruct (IH _ Hq) as [Hv [Hf _]].
      cbn [rev]. rewrite digits_value_snoc, Hv, Hc.
      split; [pose proof (N.div_mod n 10 ltac:(lia)); lia|].
      split; [constructor; assumption | discriminate].
Qed.

Lemma N_digits_spec n :
  digits_value (N_digits n) 0 = n
  /\ Forall (fun c => is_digit c = true) (N_digits n)
  /\ N_digits n <> [].
Proof.
  unfold N_digits.
  assert (Hn : (n < 2 ^ N.of_nat (S (N.to_nat (N.log2 n))))%N).
  { destruct n as [|p]; [reflexivity|].
    replace (N.of_nat (S (N.to_nat (N.log2 (N.pos p))))) with (N.succ (N.log2 (N.pos p))) by lia.
    apply N.log2_spec. lia. }
  destruct (digits_rev_spec _ _ Hn) as [Hv [Hf Hne]].
  split; [exact Hv|]. split; [apply Forall_rev, Hf|].
  intros E. apply Hne. apply (f_equal (@rev ascii)) in E. rewrite rev_involutive in E. exact E.
Qed.

Lemma digit_plain c :
  is_digit c = true ->
  is_space c = false /\ ascii_eqb c "-" = false /\ ascii_eqb c "+" = false.
Proof. each_ascii c; cbn; intros H; first [discriminate H | repeat split]. Qed.

Lemma takewhile_all {A} (p : A -> bool) l :
  Forall (fun x => p x = true) l -> takewhile p l = l.
Proof. induction 1 as [|x l Hx Hl IH]; cbn; [reflexivity|]. rewrite Hx, IH. reflexivity. Qed.

Lemma parseInt_digits ds :
  Forall (fun c => is_digit c = true) ds -> ds <> [] ->
  parseInt_string ds = Fin (inject_Z (digits_Z ds)).
Proof.
  intros Hf Hne. destruct ds as [|d ds]; [contradiction|].
  inversion Hf as [|? ? Hd Hds]; subst. destruct (digit_plain d Hd) as [Hs [Hm Hp]].
  unfold parseInt_string, trimStart. cbn [dropwhile]. rewrite Hs.
  cbn [strip_sign]. rewrite Hm, Hp. rewrite (takewhile_all is_digit (d :: ds) Hf). reflexivity.
Qed.

Lemma parseInt_neg_digits ds :
  Forall (fun c => is_digit c = true) ds -> ds <> [] ->
  parseInt_string ("-"%char :: ds) = Fin (Qopp (inject_Z (digits_Z ds))).
Proof.
  intros Hf Hne. destruct ds as [|d ds]; [contradiction|].
  unfold parseInt_string, trimStart. cbn [dropwhile].
  change (is_space "-") with false. cbn [strip_sign]. change (ascii_eqb "-" "-") with true.
  cbv iota. rewrite (takewhile_all is_digit (d :: ds) Hf). reflexivity.
Qed.

(** [parseInt] reads back the decimal rendering of an integer below 10^21. *)
Lemma decimal_round_trip (z : Z) :
  (Z.abs z < 10 ^ 21)%Z ->
  parseInt_string (Number_toString_int z) = Fin (inject_Z z).
Proof.
  intros Hz. unfold Number_toString_int. apply Z.ltb_lt in Hz as Hb. rewrite Hb.
  destruct (N_digits_spec (Z.abs_N z)) as [Hv [Hf Hne]].
  destruct (Z.ltb_spec z 0) as [Hneg|Hpos].
  - rewrite parseInt_neg_digits by assumption. unfold digits_Z. rewrite Hv.
    unfold inject_Z, Qopp. cbn [Qnum Qden]. do 2 f_equal. lia.
  - rewrite parseInt_digits by assumption. unfold digits_Z. rewrite Hv.
    do 2 f_equal. lia.
Qed.

Lemma goToPage_sets (v : list item) (value : list ascii) (st : state) (p : Z) :
  parseInt_string value = Fin (inject_Z p) ->
  goToPage v value st =
  if ((1 <=? p) && (p <=? totalPages v))%Z then setCurrentPage p st else st.
Proof.
  intros E. unfold goToPage. rewrite E.
  assert (H1 : Qle_bool 1 (inject_Z p) = (1 <=? p)%Z).
  { apply eq_true_iff_eq. rewrite Qle_bool_iff, Z.leb_le.
    change 1%Q with (inject_Z 1). rewrite <- Zle_Qle. reflexivity. }
  assert (H2 : Qle_bool (inject_Z p) (inject_Z (totalPages v)) = (p <=? totalPages v)%Z).
  { apply eq_true_iff_eq. rewrite Qle_bool_iff, Z.leb_le, <- Zle_Qle. reflexivity. }
  rewrite H1, H2. destruct ((1 <=? p)%Z && (p <=? totalPages v)%Z); [|reflexivity].
  f_equal. unfold inject_Z, Qfloor. cbn [Qnum Qden]. apply Z.div_1_r.
Qed.

(** X15.  The page form goes to page p when its input is the decimal
    rendering of a p between 1 and [totalPages]; for a rendering of any
    other integer, and for an input [parseInt] cannot read, the state is
    unchanged. *)
Theorem goToPage_decimal (v : list item) (st : state) (p : Z) :
  (Z.abs p < 10 ^ 21)%Z ->
  ((1 <= p <= totalPages v)%Z ->
     goToPage v (Number_toString_int p) st = setCurrentPage p st)
  /\ (~ (1 <= p <= totalPages v)%Z -> goToPage v (Number_toString_int p) st = st)
  /\ (forall value, parseInt_string value = NaN -> goToPage v value st = st).
Proof.
  intros Hp. pose proof (goToPage_sets v _ st p (decimal_round_trip p Hp)) as H.
  split; [|split].
  - intros [H1 H2]. rewrite H. apply Z.leb_le in H1, H2. rewrite H1, H2. reflexivity.
  - intros Hn. rewrite H.
    destruct (Z.leb_spec 1 p), (Z.leb_spec p (totalPages v)); cbn; try reflexivity. lia.
  - intros value E. unfold goToPage. rewrite E. reflexivity.
Qed.

Lemma goToPage_decimal_witness :
  (Z.abs 2 < 10 ^ 21)%Z
  /\ goToPage twentyfive (str "2") browsing = setCurrentPage 2 browsing
  /\ goToPage twentyfive (str "3") browsing = browsing.
Proof.
  assert (H2 : (Z.abs 2 < 10 ^ 21)%Z) by reflexivity.
  assert (H3 : (Z.abs 3 < 10 ^ 21)%Z) by reflexivity.
  split; [exact H2|]. split.
  - apply (proj1 (goToPage_decimal twentyfive browsing 2 H2)).
    change (totalPages twentyfive) with 2%Z. lia.
  - apply (proj1 (proj2 (goToPage_decimal twentyfive browsing 3 H3))).
    change (totalPages twentyfive) with 2%Z. lia.
Defined.

Lemma descending_range t n : forall s,
  StronglySorted Z.gt (map (fun i => (t - Z.of_nat i)%Z) (seq s n)).
Proof.
  induction n as [|n IH]; intros s; cbn; constructor; [apply IH|].
  rewrite List.Forall_forall. intros y Hy. apply List.in_map_iff in Hy as [i [<- Hi]].
  apply List.in_seq in Hi. lia.
Qed.

(** X16.  The year options are the years from the current one down to 2016,
    each once and in descending order (none before 2016), and [parseInt]
    reads the value of each option back as its year. *)
Theorem yearOptions_range (thisYear : Z) :
  (forall y, In y (yearOptions thisYear) <-> (2016 <= y <= thisYear)%Z)
  /\ StronglySorted Z.gt (yearOptions thisYear)
  /\ length (yearOptionValues thisYear) = Z.to_nat (thisYear - 2015)
  /\ ((Z.abs thisYear < 10 ^ 21)%Z ->
      map parseInt_string (yearOptionValues thisYear)
      = map (fun y => Fin (inject_Z y)) (yearOptions thisYear)).
Proof.
  split; [|split; [|split]].
  - intros y. unfold yearOptions. rewrite List.in_map_iff. split.
    + intros [i [<- Hi]]. apply List.in_seq in Hi. lia.
    + intros Hy. exists (Z.to_nat (thisYear - y)). split; [lia|]. apply List.in_seq. lia.
  - apply descending_range.
  - unfold yearOptionValues, yearOptions. rewrite !length_map, length_seq. reflexivity.
  - intros Ht. unfold yearOptionValues. rewrite List.map_map. apply List.map_ext_in.
    intros y Hy. apply decimal_round_trip. unfold yearOptions in Hy.
    apply List.in_map_iff in Hy as [i [<- Hi]]. apply List.in_seq in Hi. lia.
Qed.

(** ** The search session *)

Lemma filter_passes_all l : List.filter (passes [] []) l = l.
Proof. apply filter_fix. rewrite List.Forall_forall. intros x _. reflexivity. Qed.

(** X6.  After [handleShowAll] the View is the whole baseline, whatever
    primitive values the fields of the records hold: a permutation of
    [rawData], newest first when every year denotes an integer of magnitude
    at most 2^53; no text is highlighted, and a second click changes
    nothing. *)
Theorem handleShowAll_shows_baseline (st : state) :
  exists v,
    view (handleShowAll st) = Normal v
    /\ Permutation v (rawData st)
    /\ (Forall exact_year (rawData st) -> Sorted (descending year_of) v)
    /\ (forall it, renderText (handleShowAll st) it = Normal (field it "text"))
    /\ handleShowAll (handleShowAll st) = handleShowAll st.
Proof.
  unfold view. cbn [handleShowAll rawData rawResults selectedYear selectedPolicy sortOrder
                    setCurrentPage setSortOrder setSelectedPolicy setSelectedYear
                    setSearchTerm setInputTerm setRawResults].
  rewrite effect_no_policy, filter_passes_all. eexists. split; [reflexivity|].
  split; [apply Array_sort_perm|]. split; [|split; reflexivity].
  intros Hx. apply (Array_sort_Sorted _ (fun r => year_of r <> NaN)).
  - intros x y Hx' Hy'. apply (desc_cmp_not_Gt year_of); assumption.
  - intros x y Hx' Hy'. apply (desc_cmp_Gt year_of); assumption.
  - eapply List.Forall_impl; [|exact Hx]. intros r. apply exact_year_parses.
Qed.

Lemma handleShowAll_shows_baseline_witness :
  Forall exact_year (rawData filtered_search)
  /\ view (handleShowAll filtered_search)
     = Normal [record "2024" "Merger" 0; record "2021" "Antitrust" 0; record "2019" "Merger" 0]
  /\ Sorted (descending year_of)
            [record "2024" "Merger" 0; record "2021" "Antitrust" 0; record "2019" "Merger" 0].
Proof.
  assert (Hx : Forall exact_year (rawData filtered_search)).
  { repeat constructor.
    - apply (exact_year_record _ _ _ 2019); [lia | reflexivity].
    - apply (exact_year_record _ _ _ 2024); [lia | reflexivity].
    - apply (exact_year_record _ _ _ 2021); [lia | reflexivity]. }
  destruct (handleShowAll_shows_baseline filtered_search) as [v [Hv [_ [Hs _]]]].
  assert (Ev : v = [record "2024" "Merger" 0; record "2021" "Antitrust" 0;
                    record "2019" "Merger" 0]).
  { assert (E : Normal v = Normal [record "2024" "Merger" 0; record "2021" "Antitrust" 0;
                                   record "2019" "Merger" 0])
      by (rewrite <- Hv; vm_compute; reflexivity).
    injection E as E. exact E. }
  split; [exact Hx|]. split; [rewrite Hv, Ev; reflexivity|].
  rewrite <- Ev. apply Hs, Hx.
Defined.

(** X7.  A submit of a blank query issues no request and returns to the
    baseline with an empty search term; unlike [handleShowAll] it keeps the
    filters, the sort order and the text of the input.  (The page is the
    effects' to reset.) *)
Theorem blank_submit_returns_to_baseline (st : state) (r : response) :
  is_blank (inputTerm st) = true ->
  snd (handleSubmit_begin st) = None
  /\ rawResults (handleSubmit st r) = None
  /\ searchTerm (handleSubmit st r) = []
  /\ (rawData (handleSubmit st r) = rawData st
      /\ inputTerm (handleSubmit st r) = inputTerm st
      /\ selectedYear (handleSubmit st r) = selectedYear st
      /\ selectedPolicy (handleSubmit st r) = selectedPolicy st
      /\ sortOrder (handleSubmit st r) = sortOrder st
      /\ isLoading (handleSubmit st r) = isLoading st
      /\ console (handleSubmit st r) = console st)
  /\ view (handleSubmit st r)
     = filteredData_effect (rawData st) None (selectedYear st) (selectedPolicy st) (sortOrder st)
  /\ (forall it, renderText (handleSubmit st r) it = Normal (field it "text")).
Proof.
  intros Hb. apply trim_blank in Hb. unfold handleSubmit, handleSubmit_begin. rewrite Hb.
  cbn. repeat split; reflexivity.
Qed.

Lemma blank_submit_returns_to_baseline_witness :
  is_blank (inputTerm blank_box) = true
  /\ rawResults (handleSubmit blank_box (Rejected FetchRejected)) = None
  /\ selectedYear (handleSubmit blank_box (Rejected FetchRejected)) = str "2023".
Proof.
  assert (H : is_blank (inputTerm blank_box) = true) by reflexivity.
  destruct (blank_submit_returns_to_baseline blank_box (Rejected FetchRejected) H)
    as [_ [Hr [_ [[_ [_ [Hy _]]] _]]]].
  split; [exact H|]. split; [exact Hr|]. rewrite Hy. reflexivity.
Defined.

(** X8.  In an enriched record the fields of [metadata] are kept as they
    are, and a [score] among them replaces the score of the match; the
    score of the match is used when [metadata] has none. *)
Theorem enrich_metadata_wins (score : value) (fields : item) :
  exists it,
    enrich (Match score (Some fields)) = inr it
    /\ (forall k, k <> "score"%string -> it !! k = fields !! k)
    /\ (forall v, fields !! "score"%string = Some v -> it !! "score"%string = Some v)
    /\ (fields !! "score"%string = None -> it !! "score"%string = Some score).
Proof.
  eexists. split; [reflexivity|]. split; [|split].
  - intros k Hk. destruct (fields !! k) as [v|] eqn:E.
    + apply lookup_union_Some_l, E.
    + rewrite lookup_union_r by exact E. apply lookup_singleton_ne. congruence.
  - intros v E. apply lookup_union_Some_l, E.
  - intros E. rewrite lookup_union_r by exact E. apply lookup_singleton_eq.
Qed.

(** X9.  One [null] among the matches fails the whole response with a
    TypeError; without one, every match is enriched, in order. *)
Theorem null_match_discards_response (ms : list smatch) :
  (In MatchNull ms -> enriched_of (Body (Some ms)) = inl (Thrown TypeError))
  /\ (~ In MatchNull ms ->
      exists items, enriched_of (Body (Some ms)) = inr items
                    /\ length items = length ms
                    /\ Forall2 (fun m it => enrich m = inr it) ms items).
Proof.
  cbn [enriched_of]. induction ms as [|m ms [IHn IHs]].
  - split; [intros []|]. intros _. exists []. repeat split. constructor.
  - split.
    + intros [->|Hin]; [reflexivity|]. cbn. destruct m; [reflexivity|].
      cbn. rewrite (IHn Hin). reflexivity.
    + intros Hn. destruct m as [|s md]; [exfalso; apply Hn; left; reflexivity|].
      destruct IHs as [items [E [Hl Hf]]]; [intros H; apply Hn; right; exact H|].
      cbn. rewrite E. eexists. split; [reflexivity|]. split; [cbn; congruence|].
      constructor; [reflexivity | exact Hf].
Qed.

Lemma settle_success (r : response) (items : list item) (mid : state) :
  enriched_of r = inr items ->
  handleSubmit_settle r mid =
  mkState (rawData mid) (Some items) false (inputTerm mid) (searchTerm mid)
          (selectedYear mid) (selectedPolicy mid) (sortOrder mid) 1 (console mid).
Proof. intros E. unfold handleSubmit_settle. rewrite E. reflexivity. Qed.

Lemma map_enrich_length ms : forall items,
  Array_map_enrich ms = inr items -> length items = length ms.
Proof.
  induction ms as [|m ms IH]; intros items; cbn.
  - intros [= <-]. reflexivity.
  - destruct (enrich m); [discriminate|]. destruct (Array_map_enrich ms); [discriminate|].
    intros [= <-]. cbn. f_equal. apply IH. reflexivity.
Qed.

(** X10.  A successful search of a non-empty query makes the enriched
    matches the result set, keeps the filters and goes to page 1.  The View
    holds enriched matches only, at most as many as the response had; with
    at most 20 matches (the limit of the request) it fits on the one page
    shown. *)
Theorem successful_search_fits_one_page (st : state) (ms : list smatch) (items : list item) :
  trim (inputTerm st) <> [] ->
  enriched_of (Body (Some ms)) = inr items ->
  Forall policy_typed items ->
  handleSubmit st (Body (Some ms)) =
    mkState (rawData st) (Some items) false (inputTerm st) (trim (inputTerm st))
            (selectedYear st) (selectedPolicy st) (sortOrder st) 1 (console st)
  /\ exists v,
       view (handleSubmit st (Body (Some ms))) = Normal v
       /\ (length v <= length ms)%nat
       /\ (forall r, In r v -> In r items)
       /\ ((length ms <= 20)%nat ->
           (totalPages v <= 1)%Z
           /\ currentPageData v (currentPage (handleSubmit st (Body (Some ms)))) = v).
Proof.
  intros Hq E Ht.
  assert (H : handleSubmit st (Body (Some ms)) =
    mkState (rawData st) (Some items) false (inputTerm st) (trim (inputTerm st))
            (selectedYear st) (selectedPolicy st) (sortOrder st) 1 (console st)).
  { unfold handleSubmit, handleSubmit_begin. rewrite (trim_truthy _ Hq).
    rewrite (settle_success _ items) by exact E. reflexivity. }
  split; [exact H|]. rewrite H. unfold view. cbn [rawData rawResults selectedYear
    selectedPolicy sortOrder currentPage].
  destruct (effect_view (rawData st) (Some items) (selectedYear st) (selectedPolicy st)
              (sortOrder st) Ht) as [v [Hv Hp]].
  exists v. split; [exact Hv|].
  assert (Hlen : length items = length ms) by (apply map_enrich_length, E).
  assert (Hle : (length v <= length ms)%nat).
  { rewrite (Permutation_length Hp), <- Hlen. apply List.filter_length_le. }
  split; [exact Hle|]. split.
  - intros r Hr. apply (Permutation_in _ Hp), List.filter_In in Hr as [Hr _]. exact Hr.
  - intros H20. split.
    + rewrite totalPages_div.
      pose proof (Z.div_mod (Z.of_nat (length v) + 19) 20 ltac:(lia)).
      pose proof (Z.mod_pos_bound (Z.of_nat (length v) + 19) 20 ltac:(lia)). lia.
    + change 1%Z with (Z.of_nat 1). rewrite (page_take_drop v 0).
      cbn [Nat.mul drop]. apply take_ge. lia.
Qed.

Lemma successful_search_fits_one_page_witness :
  trim (inputTerm browsing) <> []
  /\ rawResults (handleSubmit browsing (Body (Some one_match)))
     = Some [record "2022" "Antitrust" (1 # 10)]
  /\ currentPage (handleSubmit browsing (Body (Some one_match))) = 1%Z.
Proof.
  assert (Hq : trim (inputTerm browsing) <> []) by discriminate.
  assert (Ht : Forall policy_typed [record "2022" "Antitrust" (1 # 10)])
    by (repeat constructor).
  destruct (successful_search_fits_one_page browsing one_match
              [record "2022" "Antitrust" (1 # 10)] Hq eq_refl Ht) as [E _].
  split; [exact Hq|]. rewrite E. split; reflexivity.
Defined.

(** X11.  Two searches in flight are not ordered: when the first response
    arrives after the second, the result set is the one of the first query
    while the search term is the second query; the loading flag is cleared
    by the first response to arrive. *)
Theorem stale_response_wins (st : state) (r1 r2 : response) (items1 items2 : list item)
    (query2 : list ascii) :
  trim (inputTerm st) <> [] ->
  trim query2 <> [] ->
  enriched_of r1 = inr items1 ->
  enriched_of r2 = inr items2 ->
  let first := fst (handleSubmit_begin st) in
  let second := fst (handleSubmit_begin (setInputTerm query2 first)) in
  let settled2 := handleSubmit_settle r2 second in
  let settled1 := handleSubmit_settle r1 settled2 in
  snd (handleSubmit_begin st) = Some (mkRequest (trim (inputTerm st)) ITEMS_PER_PAGE)
  /\ snd (handleSubmit_begin (setInputTerm query2 first))
     = Some (mkRequest (trim query2) ITEMS_PER_PAGE)
  /\ isLoading second = true
  /\ isLoading settled2 = false
  /\ rawResults settled2 = Some items2
  /\ rawResults settled1 = Some items1
  /\ searchTerm settled1 = trim query2.
Proof.
  intros Hq1 Hq2 E1 E2. cbv zeta. unfold handleSubmit_begin.
  rewrite (trim_truthy _ Hq1). cbn [fst snd setInputTerm inputTerm setSearchTerm setIsLoading].
  rewrite (trim_truthy _ Hq2). cbn [fst snd].
  rewrite !(settle_success _ _ _ E1), !(settle_success _ _ _ E2). repeat split.
Qed.

Lemma stale_response_wins_witness :
  trim (inputTerm browsing) <> []
  /\ trim (str "merger ") <> []
  /\ rawResults
       (handleSubmit_settle (Body (Some one_match))
          (handleSubmit_settle (Body (Some []))
             (fst (handleSubmit_begin
                     (setInputTerm (str "merger ") (fst (handleSubmit_begin browsing)))))))
     = Some [record "2022" "Antitrust" (1 # 10)]
  /\ searchTerm
       (handleSubmit_settle (Body (Some one_match))
          (handleSubmit_settle (Body (Some []))
             (fst (handleSubmit_begin
                     (setInputTerm (str "merger ") (fst (handleSubmit_begin browsing)))))))
     = str "merger".
Proof.
  assert (H1 : trim (inputTerm browsing) <> []) by discriminate.
  assert (H2 : trim (str "merger ") <> []) by discriminate.
  destruct (stale_response_wins browsing (Body (Some one_match)) (Body (Some []))
              [record "2022" "Antitrust" (1 # 10)] [] (str "merger ") H1 H2 eq_refl eq_refl)
    as [_ [_ [_ [_ [_ [Hr Hs]]]]]].
  split; [exact H1|]. split; [exact H2|]. split; [exact Hr | exact Hs].
Defined.

(** X12.  A search in flight is not cancelled by [handleShowAll]: when its
    response arrives after the clear, the results replace the baseline, with
    an empty search term and nothing highlighted. *)
Theorem response_after_clear_wins (st : state) (r : response) (items : list item) :
  trim (inputTerm st) <> [] ->
  enriched_of r = inr items ->
  let final := handleSubmit_settle r (handleShowAll (fst (handleSubmit_begin st))) in
  snd (handleSubmit_begin st) = Some (mkRequest (trim (inputTerm st)) ITEMS_PER_PAGE)
  /\ rawResults (handleShowAll (fst (handleSubmit_begin st))) = None
  /\ rawResults final = Some items
  /\ searchTerm final = []
  /\ inputTerm final = []
  /\ (forall it, renderText final it = Normal (field it "text")).
Proof.
  intros Hq E. cbv zeta. rewrite (settle_success _ _ _ E).
  split; [|repeat split]. unfold handleSubmit_begin. rewrite (trim_truthy _ Hq). reflexivity.
Qed.

Lemma response_after_clear_wins_witness :
  trim (inputTerm browsing) <> []
  /\ rawResults (handleSubmit_settle (Body (Some one_match))
                   (handleShowAll (fst (handleSubmit_begin browsing))))
     = Some [record "2022" "Antitrust" (1 # 10)]
  /\ searchTerm (handleSubmit_settle (Body (Some one_match))
                   (handleShowAll (fst (handleSubmit_begin browsing)))) = [].
Proof.
  assert (H1 : trim (inputTerm browsing) <> []) by discriminate.
  destruct (response_after_clear_wins browsing (Body (Some one_match))
              [record "2022" "Antitrust" (1 # 10)] H1 eq_refl)
    as [_ [_ [Hr [Hs _]]]].
  split; [exact H1|]. split; [exact Hr | exact Hs].
Defined.
